(** * Minesweeper knowledge-based agent: shallow embedding and verification

    The development embeds [src/minesweeper.py] (classes [Sentence] and
    [MinesweeperAI], and [Minesweeper.nearby_mines]) and proves the
    properties of the inference engine.

    Modelling conventions.
    - A board cell is a pair of Python integers, here [Z * Z].
    - A Python [set] of cells is a [gset Cell]; structural equality of sets
      is Leibniz equality on [gset].
    - A method is a computation in a state-and-exception monad over the
      object it is called on: it returns normally with a value and the new
      object, raises a Python exception, or runs out of fuel (the loops that
      iterate over a list that may grow are given fuel).
    - The list [knowledge] holds mutable sentences; a sentence is addressed
      by its index, so that the alias [new_sentence] of [add_knowledge]
      sees the mutations made through [self.knowledge]. *)

From Stdlib Require Import ZArith Lia.
From stdpp Require Import base option list gmap fin_sets.

Open Scope Z_scope.

(** ** Outcomes and the method monad *)

Inductive exn : Type := KeyError | IndexError.

Inductive result (A : Type) : Type :=
| Ok (a : A)
| Raise (e : exn)
| OutOfFuel.
Arguments Ok {A} a.
Arguments Raise {A} e.
Arguments OutOfFuel {A}.

Definition M (S A : Type) : Type := S → result (A * S).

Definition ret {S A : Type} (a : A) : M S A := λ s, Ok (a, s).

Definition bind {S A B : Type} (m : M S A) (k : A → M S B) : M S B :=
  λ s, match m s with
       | Ok (a, s') => k a s'
       | Raise e => Raise e
       | OutOfFuel => OutOfFuel
       end.

Definition get {S : Type} : M S S := λ s, Ok (s, s).
Definition put {S : Type} (s : S) : M S unit := λ _, Ok (tt, s).
Definition modify {S : Type} (f : S → S) : M S unit := λ s, Ok (tt, f s).
Definition raise {S A : Type} (e : exn) : M S A := λ _, Raise e.

(** The outcome of a primitive that does not touch the object. *)
Definition lift {S A : Type} (r : result A) : M S A :=
  λ s, match r with
       | Ok a => Ok (a, s)
       | Raise e => Raise e
       | OutOfFuel => OutOfFuel
       end.

Declare Scope py_scope.
Delimit Scope py_scope with py.
Notation "'let!' x ':=' m 'in' k" := (bind m (λ x, k))
  (at level 10, x name, m at level 100, k at level 200, only parsing) : py_scope.
Notation "m '>>' k" := (bind m (λ _, k))
  (at level 90, right associativity, only parsing) : py_scope.
Open Scope py_scope.

(** [for x in xs: body x] over a snapshot [xs] (a tuple, a range, or a copy
    of a set): the iterated sequence is fixed when the loop starts. *)
Fixpoint for_each {S A : Type} (xs : list A) (body : A → M S unit) : M S unit :=
  match xs with
  | [] => ret tt
  | x :: xs' => body x >> for_each xs' body
  end.

(** ** Cells *)

Definition Cell : Type := (Z * Z)%type.

(** [set.remove(x)]: raises [KeyError] when [x] is absent. *)
Definition set_remove (x : Cell) (X : gset Cell) : result (gset Cell) :=
  if bool_decide (x ∈ X) then Ok (X ∖ {[x]}) else Raise KeyError.

(** Truth value of a set: non-empty. *)
Definition truthy (X : gset Cell) : bool := bool_decide (X ≠ ∅).

(** [len(X)] as a Python integer. *)
Definition len (X : gset Cell) : Z := Z.of_nat (size X).

(** [random.choice(seq)] with the random source made explicit: [rnd] selects
    the position; an empty sequence raises [IndexError]. *)
Definition random_choice {A : Type} (rnd : nat) (seq : list A) : result A :=
  match seq !! (rnd `mod` length seq)%nat with
  | Some x => Ok x
  | None => Raise IndexError
  end.

(** ** class Sentence *)

Module Sentence.

Record t : Type := mk { cells : gset Cell; count : Z }.

(** [__eq__]: same cell set and same count. *)
Definition eq (a b : t) : bool :=
  bool_decide (cells a = cells b) && bool_decide (count a = count b).

Definition set_cells (X : gset Cell) (s : t) : t := mk X (count s).
Definition set_count (n : Z) (s : t) : t := mk (cells s) n.

Definition known_mines : M t (gset Cell) :=
  let! self := get in
  if bool_decide (len (cells self) = count self) && bool_decide (count self ≠ 0)
  then ret (cells self)
  else ret ∅.

Definition known_safes : M t (gset Cell) :=
  let! self := get in
  if bool_decide (count self = 0)
  then ret (cells self)
  else ret ∅.

(** [self.cells.remove(cell)] *)
Definition cells_remove (cell : Cell) : M t unit :=
  let! self := get in
  let! X := lift (set_remove cell (cells self)) in
  put (set_cells X self).

Definition mark_mine (cell : Cell) : M t unit :=
  let! self := get in
  if bool_decide (cell ∈ cells self) then
    cells_remove cell >>
    modify (λ self, set_count (count self - 1) self)
  else ret tt.

Definition mark_safe (cell : Cell) : M t unit :=
  let! self := get in
  if bool_decide (cell ∈ cells self) then
    cells_remove cell
  else ret tt.

End Sentence.

(** ** class MinesweeperAI *)

Module MinesweeperAI.

Record t : Type := mk {
  height : Z;
  width : Z;
  moves_made : gset Cell;
  mines : gset Cell;
  safes : gset Cell;
  knowledge : list Sentence.t
}.

(** [__init__] *)
Definition init (height width : Z) : t := mk height width ∅ ∅ ∅ [].

Definition set_moves_made (X : gset Cell) (a : t) : t :=
  mk (height a) (width a) X (mines a) (safes a) (knowledge a).
Definition set_mines (X : gset Cell) (a : t) : t :=
  mk (height a) (width a) (moves_made a) X (safes a) (knowledge a).
Definition set_safes (X : gset Cell) (a : t) : t :=
  mk (height a) (width a) (moves_made a) (mines a) X (knowledge a).
Definition set_knowledge (K : list Sentence.t) (a : t) : t :=
  mk (height a) (width a) (moves_made a) (mines a) (safes a) K.

(** Calling the method [m] on the sentence object [self.knowledge[i]]:
    the object is updated in place, whoever holds a reference to it. *)
Definition on_sentence {A : Type} (i : nat) (m : M Sentence.t A) : M t A :=
  λ self,
    match knowledge self !! i with
    | None => Raise IndexError
    | Some s =>
        match m s with
        | Ok (a, s') => Ok (a, set_knowledge (<[i:=s']> (knowledge self)) self)
        | Raise e => Raise e
        | OutOfFuel => OutOfFuel
        end
    end.

(** [for sentence in self.knowledge: sentence.m()], where the body is a
    method of the sentence alone and so cannot reach the list: the loop
    visits the sentences present at its start, in order. *)
Fixpoint for_range (n i : nat) (body : nat → M t unit) : M t unit :=
  match n with
  | O => ret tt
  | S n' => body i >> for_range n' (S i) body
  end.

Definition each_sentence (m : M Sentence.t unit) : M t unit :=
  let! self := get in
  for_range (length (knowledge self)) 0 (λ i, on_sentence i m).

(** [for sentence in self.knowledge: body], where the body works on
    [self]: Python's list iterator keeps a position and compares it with
    the current length of the list before every step, so that sentences
    appended by the body are visited too.  [body] receives the position. *)
Fixpoint for_knowledge (fuel i : nat) (body : nat → M t unit) : M t unit :=
  λ self,
    if bool_decide (i < length (knowledge self))%nat then
      match fuel with
      | O => OutOfFuel
      | S fuel' => (body i >> for_knowledge fuel' (S i) body) self
      end
    else Ok (tt, self).

Definition mark_mine (cell : Cell) : M t unit :=
  modify (λ self, set_mines ({[cell]} ∪ mines self) self) >>
  each_sentence (Sentence.mark_mine cell).

Definition mark_safe (cell : Cell) : M t unit :=
  modify (λ self, set_safes ({[cell]} ∪ safes self) self) >>
  each_sentence (Sentence.mark_safe cell).

(** The cells visited by
    [for r in range(i - 1, i + 2): for c in range(j - 1, j + 2)]. *)
Definition block (cell : Cell) : list Cell :=
  r ← seqZ (cell.1 - 1) 3; c ← seqZ (cell.2 - 1) 3; [(r, c)].

(** One turn of the inner loop body of step 3, on the local variables
    [count] and [new_set]. *)
Definition survey (self : t) (cell : Cell)
    (acc : Z * gset Cell) (u_cell : Cell) : Z * gset Cell :=
  let '(count, new_set) := acc in
  if bool_decide (cell = u_cell) || bool_decide (u_cell ∈ safes self) then
    (count, new_set)
  else if bool_decide (u_cell ∈ mines self) then
    (count - 1, new_set)
  else if bool_decide (0 ≤ u_cell.1 < height self)
          && bool_decide (0 ≤ u_cell.2 < width self) then
    (count, {[u_cell]} ∪ new_set)
  else (count, new_set).

(** Step 4, body of the scan for the sentence at position [i]. *)
Definition infer (i : nat) : M t unit :=
  (let! km := on_sentence i Sentence.known_mines in
   if truthy km then
     let! km' := on_sentence i Sentence.known_mines in
     for_each (elements km') mark_mine
   else ret tt) >>
  (let! ks := on_sentence i Sentence.known_safes in
   if truthy ks then
     let! ks' := on_sentence i Sentence.known_safes in
     for_each (elements ks') mark_safe
   else ret tt).

(** [x in self.knowledge], by [__eq__]. *)
Definition in_knowledge (x : Sentence.t) (K : list Sentence.t) : bool :=
  existsb (λ e, Sentence.eq e x) K.

(** Step 5, body of the loop for the sentence at position [i];
    [new] is the position of [new_sentence] in [self.knowledge]. *)
Definition subsume (new i : nat) : M t unit :=
  let! sentence := on_sentence i get in
  let! new_sentence := on_sentence new get in
  if bool_decide (Sentence.cells new_sentence ⊆ Sentence.cells sentence)
     && bool_decide (Sentence.count sentence > 0)
     && negb (Sentence.eq new_sentence sentence) then
    let new_sub := Sentence.cells sentence ∖ Sentence.cells new_sentence in
    let current_sentence :=
      Sentence.mk new_sub (Sentence.count sentence - Sentence.count new_sentence) in
    let! self := get in
    if negb (in_knowledge current_sentence (knowledge self)) then
      modify (λ self, set_knowledge (knowledge self ++ [current_sentence]) self)
    else ret tt
  else ret tt.

(** Steps 1 to 3 of [add_knowledge]; the value returned is the position
    in [self.knowledge] of the sentence that the local name [new_sentence]
    refers to. *)
Definition observe (cell : Cell) (count : Z) : M t nat :=
  (* 1 *)
  modify (λ self, set_moves_made ({[cell]} ∪ moves_made self) self) >>
  (* 2 *)
  mark_safe cell >>
  (* 3 *)
  let! self := get in
  let '(count, new_set) := foldl (survey self cell) (count, ∅) (block cell) in
  let new_sentence := Sentence.mk new_set count in
  modify (λ self, set_knowledge (knowledge self ++ [new_sentence]) self) >>
  ret (length (knowledge self)).

Definition add_knowledge (fuel : nat) (cell : Cell) (count : Z) : M t unit :=
  let! new := observe cell count in
  (* 4 *)
  for_knowledge fuel 0 infer >>
  (* 5 *)
  for_knowledge fuel 0 (subsume new).

Definition make_safe_move (rnd : nat) : M t (option Cell) :=
  let! self := get in
  let moves := safes self ∖ moves_made self in
  if truthy moves then
    let! move := lift (random_choice rnd (elements moves)) in
    ret (Some move)
  else ret None.

(** The cells visited by
    [for r in range(self.height): for c in range(self.width)]. *)
Definition grid (self : t) : list Cell :=
  r ← seqZ 0 (height self); c ← seqZ 0 (width self); [(r, c)].

(** One turn of the inner loop body of [make_random_move], on the local
    list [moves]. *)
Definition collect (self : t) (moves : list Cell) (u : Cell) : list Cell :=
  if bool_decide (u ∉ moves_made self) && bool_decide (u ∉ mines self)
  then moves ++ [u]
  else moves.

Definition make_random_move (rnd : nat) : M t (option Cell) :=
  let! self := get in
  let moves := foldl (collect self) [] (grid self) in
  if bool_decide (length moves ≠ 0%nat) then
    let! move := lift (random_choice rnd moves) in
    ret (Some move)
  else ret None.

End MinesweeperAI.

Arguments MinesweeperAI.block : simpl never.

(** ** The board: class Minesweeper

    The board is the set of its mined cells ([self.mines], which the
    constructor keeps equal to the [True] entries of [self.board]). *)

Module Minesweeper.

Record t : Type := mk { height : Z; width : Z; mines : gset Cell }.

(** [self.board[i][j]], for a cell in bounds. *)
Definition is_mine (cell : Cell) (self : t) : bool :=
  bool_decide (cell ∈ mines self).

(** One turn of the inner loop body of [nearby_mines]. *)
Definition tally (self : t) (cell : Cell) (count : Z) (u : Cell) : Z :=
  if bool_decide (u = cell) then count
  else if bool_decide (0 ≤ u.1 < height self) && bool_decide (0 ≤ u.2 < width self) then
    if is_mine u self then count + 1 else count
  else count.

Definition nearby_mines (cell : Cell) (self : t) : Z :=
  foldl (tally self cell) 0 (MinesweeperAI.block cell).

End Minesweeper.

(** ** The board with its grid: the constructor of class Minesweeper

    The object as [__init__] builds it, with the grid [self.board] beside
    [self.mines] and [self.mines_found].  The random source is a list of
    draws, one pair per turn of the [while] loop; the loop is starved when
    the list is exhausted. *)

Module Grid.

Record t : Type := mk {
  height : Z;
  width : Z;
  mines : gset Cell;
  board : list (list bool);
  mines_found : gset Cell
}.

Inductive outcome : Type :=
| Built (self : t)
| ValueError
| IndexError
| Starved.

(** The position that [l[i]] designates, with Python's negative indices;
    [None] stands for [IndexError]. *)
Definition position {A : Type} (l : list A) (i : Z) : option nat :=
  if bool_decide (0 ≤ i < Z.of_nat (length l)) then Some (Z.to_nat i)
  else if bool_decide (- Z.of_nat (length l) ≤ i < 0)
       then Some (Z.to_nat (Z.of_nat (length l) + i))
       else None.

Definition item {A : Type} (l : list A) (i : Z) : option A :=
  p ← position l i; l !! p.

Definition set_item {A : Type} (l : list A) (i : Z) (x : A) : option (list A) :=
  p ← position l i; Some (<[p:=x]> l).

(** [random.randrange(n)] on the draw [r]; [None] stands for the
    [ValueError] of an empty range. *)
Definition randrange (n : Z) (r : nat) : option Z :=
  if bool_decide (0 < n) then Some (Z.of_nat r `mod` n) else None.

(** The field without mines, as the two nested loops build it. *)
Definition empty_row (width : Z) : list bool :=
  foldl (λ row _, row ++ [false]) [] (seqZ 0 width).

Definition empty_board (height width : Z) : list (list bool) :=
  foldl (λ board _, board ++ [empty_row width]) [] (seqZ 0 height).

(** The loop [while len(self.mines) != mines]. *)
Fixpoint place (draws : list (nat * nat)) (target : Z) (self : t) : outcome :=
  if bool_decide (len (mines self) ≠ target) then
    match draws with
    | [] => Starved
    | (r1, r2) :: draws' =>
        match randrange (height self) r1 with
        | None => ValueError
        | Some i =>
            match randrange (width self) r2 with
            | None => ValueError
            | Some j =>
                match item (board self) i with
                | None => IndexError
                | Some row =>
                    match item row j with
                    | None => IndexError
                    | Some true => place draws' target self
                    | Some false =>
                        match set_item row j true with
                        | None => IndexError
                        | Some row' =>
                            match set_item (board self) i row' with
                            | None => IndexError
                            | Some board' =>
                                place draws' target
                                  (mk (height self) (width self)
                                      ({[(i, j)]} ∪ mines self) board'
                                      (mines_found self))
                            end
                        end
                    end
                end
            end
        end
    end
  else Built self.

(** [__init__(height, width, mines)] *)
Definition init (draws : list (nat * nat)) (height width mines : Z) : outcome :=
  place draws mines (mk height width ∅ (empty_board height width) ∅).

(** [is_mine(cell)]: [self.board[i][j]]. *)
Definition is_mine (cell : Cell) (self : t) : option bool :=
  row ← item (board self) cell.1; item row cell.2.

(** [won()] *)
Definition won (self : t) : bool :=
  bool_decide (mines_found self = mines self).

End Grid.

(** ** Driving the agent *)

Inductive call : Type :=
| AddKnowledge (cell : Cell) (count : Z)
| MarkMine (cell : Cell)
| MarkSafe (cell : Cell).

Definition perform (fuel : nat) (c : call) : M MinesweeperAI.t unit :=
  match c with
  | AddKnowledge cell count => MinesweeperAI.add_knowledge fuel cell count
  | MarkMine cell => MinesweeperAI.mark_mine cell
  | MarkSafe cell => MinesweeperAI.mark_safe cell
  end.

(** Calls on one sentence. *)
Inductive mark : Type :=
| SMine (cell : Cell)
| SSafe (cell : Cell).

Definition apply_mark (m : mark) : M Sentence.t unit :=
  match m with
  | SMine cell => Sentence.mark_mine cell
  | SSafe cell => Sentence.mark_safe cell
  end.

(** ** Specification vocabulary *)

(** The invariant [0 <= count <= |cells|] of a sentence. *)
Definition well_counted (s : Sentence.t) : Prop :=
  0 ≤ Sentence.count s ≤ len (Sentence.cells s).

(** The value of a sentence after the cells of [X] were marked as mines,
    and after they were marked as safe. *)
Definition strike_mines (X : gset Cell) (s : Sentence.t) : Sentence.t :=
  Sentence.mk (Sentence.cells s ∖ X) (Sentence.count s - len (Sentence.cells s ∩ X)).

Definition strike_safes (X : gset Cell) (s : Sentence.t) : Sentence.t :=
  Sentence.mk (Sentence.cells s ∖ X) (Sentence.count s).

(** The agent after the cells of [X] were marked as mines, or as safe. *)
Definition flag_mines (X : gset Cell) (a : MinesweeperAI.t) : MinesweeperAI.t :=
  MinesweeperAI.mk (MinesweeperAI.height a) (MinesweeperAI.width a)
    (MinesweeperAI.moves_made a) (X ∪ MinesweeperAI.mines a) (MinesweeperAI.safes a)
    (strike_mines X <$> MinesweeperAI.knowledge a).

Definition flag_safes (X : gset Cell) (a : MinesweeperAI.t) : MinesweeperAI.t :=
  MinesweeperAI.mk (MinesweeperAI.height a) (MinesweeperAI.width a)
    (MinesweeperAI.moves_made a) (MinesweeperAI.mines a) (X ∪ MinesweeperAI.safes a)
    (strike_safes X <$> MinesweeperAI.knowledge a).

(** What [known_mines] and [known_safes] return. *)
Definition sure_mines (s : Sentence.t) : gset Cell :=
  if decide (len (Sentence.cells s) = Sentence.count s ∧ Sentence.count s ≠ 0)
  then Sentence.cells s else ∅.

Definition sure_safes (s : Sentence.t) : gset Cell :=
  if decide (Sentence.count s = 0) then Sentence.cells s else ∅.

(** A sentence from which the scan of step 4 learns nothing. *)
Definition settled (s : Sentence.t) : Prop :=
  sure_mines s = ∅ ∧ sure_safes s = ∅.

(** The agent after the scan of step 4 has visited a sentence of value [s]. *)
Definition infer_effect (s : Sentence.t) (a : MinesweeperAI.t) : MinesweeperAI.t :=
  if decide (sure_mines s ≠ ∅) then flag_mines (sure_mines s) a
  else if decide (sure_safes s ≠ ∅) then flag_safes (sure_safes s) a
  else a.

(** The agent after the scan has visited [n] sentences from position [i]. *)
Fixpoint scan (n i : nat) (a : MinesweeperAI.t) : MinesweeperAI.t :=
  match n with
  | O => a
  | S n' =>
      match MinesweeperAI.knowledge a !! i with
      | Some s => scan n' (S i) (infer_effect s a)
      | None => a
      end
  end.

(** Step 5 on one visited sentence [s], for the new sentence [n]: when the
    candidate is formed, and which one. *)
Definition triggers (n s : Sentence.t) : Prop :=
  Sentence.cells n ⊆ Sentence.cells s ∧ Sentence.count s > 0 ∧ n ≠ s.

#[global] Instance sentence_eq_dec : EqDecision Sentence.t.
Proof. solve_decision. Defined.

#[global] Instance triggers_dec (n s : Sentence.t) : Decision (triggers n s).
Proof.
  unfold triggers.
  refine (and_dec _ (and_dec (cast_if (decide (0 < Sentence.count s))) _)); abstract lia.
Defined.

Definition candidate (n s : Sentence.t) : Sentence.t :=
  Sentence.mk (Sentence.cells s ∖ Sentence.cells n) (Sentence.count s - Sentence.count n).

Definition subsume_effect (n s : Sentence.t) (K : list Sentence.t) : list Sentence.t :=
  if decide (triggers n s ∧ candidate n s ∉ K) then K ++ [candidate n s] else K.

(** The eight neighbours of a cell, in or out of bounds. *)
Definition neighbours (cell : Cell) : gset Cell :=
  list_to_set (MinesweeperAI.block cell) ∖ {[cell]}.

(** [0 <= r < self.height and 0 <= c < self.width] *)
Definition in_bounds (a : MinesweeperAI.t) (c : Cell) : Prop :=
  (0 ≤ c.1 < MinesweeperAI.height a) ∧ (0 ≤ c.2 < MinesweeperAI.width a).

#[global] Instance in_bounds_dec (a : MinesweeperAI.t) (c : Cell) : Decision (in_bounds a c).
Proof. unfold in_bounds. apply _. Defined.

(** The sentence that step 3 builds, in closed form: its cells are the
    neighbours in bounds that are neither known safe nor known mines, and
    its count is the reported count less the neighbours that are known
    mines and not known safe. *)
Definition fresh_cells (a : MinesweeperAI.t) (cell : Cell) : gset Cell :=
  filter (in_bounds a) (neighbours cell) ∖ MinesweeperAI.safes a ∖ MinesweeperAI.mines a.

Definition fresh_count (a : MinesweeperAI.t) (cell : Cell) (count : Z) : Z :=
  count - len (neighbours cell ∩ MinesweeperAI.mines a ∖ MinesweeperAI.safes a).

(** The agent after steps 1 to 3. *)
Definition observed (a : MinesweeperAI.t) (cell : Cell) (count : Z) : MinesweeperAI.t :=
  MinesweeperAI.mk (MinesweeperAI.height a) (MinesweeperAI.width a)
    ({[cell]} ∪ MinesweeperAI.moves_made a) (MinesweeperAI.mines a)
    ({[cell]} ∪ MinesweeperAI.safes a)
    ((strike_safes {[cell]} <$> MinesweeperAI.knowledge a)
       ++ [Sentence.mk (fresh_cells a cell) (fresh_count a cell count)]).

(** The knowledge list through the loop of step 5, from position [i];
    [None] when the fuel does not suffice. *)
Fixpoint chase (fuel i : nat) (n : Sentence.t) (K : list Sentence.t)
    : option (list Sentence.t) :=
  match K !! i with
  | None => Some K
  | Some s =>
      match fuel with
      | O => None
      | S fuel' => chase fuel' (S i) n (subsume_effect n s K)
      end
  end.

(** The agent when step 4 of [add_knowledge] is over, and the value that
    the sentence named [new_sentence] has by then. *)
Definition scanned (a : MinesweeperAI.t) (cell : Cell) (count : Z) : MinesweeperAI.t :=
  scan (S (length (MinesweeperAI.knowledge a))) 0 (observed a cell count).

Definition new_sentence (a : MinesweeperAI.t) (cell : Cell) (count : Z) : Sentence.t :=
  default (Sentence.mk ∅ 0)
    (MinesweeperAI.knowledge (scanned a cell count) !! length (MinesweeperAI.knowledge a)).

(** When a mark keeps a sentence within [0 <= count <= |cells|]: a cell of
    the sentence may be struck as a mine only if a mine is still counted,
    and as safe only if the other cells can hold the count. *)
Definition admissible (m : mark) (s : Sentence.t) : Prop :=
  match m with
  | SMine c => c ∈ Sentence.cells s → 1 ≤ Sentence.count s
  | SSafe c => c ∈ Sentence.cells s → Sentence.count s < len (Sentence.cells s)
  end.

(** The sentence after a mark, in closed form. *)
Definition marked (m : mark) (s : Sentence.t) : Sentence.t :=
  match m with
  | SMine c => strike_mines {[c]} s
  | SSafe c => strike_safes {[c]} s
  end.

Fixpoint admissible_all (ms : list mark) (s : Sentence.t) : Prop :=
  match ms with
  | [] => True
  | m :: ms' => admissible m s ∧ admissible_all ms' (marked m s)
  end.

(** ** Concrete boards and agents used in the examples *)

(** A 3 x 3 board whose only mine is at (0, 0). *)
Definition corner_board : Minesweeper.t := Minesweeper.mk 3 3 {[(0, 0)]}.

(** The agent after [add_knowledge((2, 2), 0)] on a fresh 3 x 3 agent. *)
Definition corner_agent : MinesweeperAI.t :=
  MinesweeperAI.mk 3 3 {[(2, 2)]} ∅ {[(1, 1); (1, 2); (2, 1); (2, 2)]}
    [Sentence.mk ∅ 0].

(** A fresh 8 x 8 agent told that (1, 1) has one mined neighbour and then
    that (0, 0) has three: the last sentence, derived by step 5, counts -2
    mines. *)
Definition overcounted_agent : MinesweeperAI.t :=
  MinesweeperAI.mk 8 8 {[(0, 0); (1, 1)]} ∅ {[(0, 0); (1, 1)]}
    [ Sentence.mk {[(0, 1); (0, 2); (1, 0); (1, 2); (2, 0); (2, 1); (2, 2)]} 1;
      Sentence.mk {[(0, 1); (1, 0)]} 3;
      Sentence.mk {[(0, 2); (1, 2); (2, 0); (2, 1); (2, 2)]} (-2) ].


(** An 8 x 8 board with a single mine at (0, 1), and the fresh agent after
    the board's answers for (1, 1) and for (0, 0). *)
Definition lone_board : Minesweeper.t := Minesweeper.mk 8 8 {[(0, 1)]}.

Definition unscanned_agent : MinesweeperAI.t :=
  MinesweeperAI.mk 8 8 {[(0, 0); (1, 1)]} ∅ {[(0, 0); (1, 1)]}
    [ Sentence.mk {[(0, 1); (0, 2); (1, 0); (1, 2); (2, 0); (2, 1); (2, 2)]} 1;
      Sentence.mk {[(0, 1); (1, 0)]} 1;
      Sentence.mk {[(0, 2); (1, 2); (2, 0); (2, 1); (2, 2)]} 0 ].

(** Scenario 3 of the specification: [knowledge] holds
    [{(0,0),(0,1),(0,2)} = 1] and the new sentence [{(0,0),(0,1)} = 1];
    step 5 derives [{(0,2)} = 0]. *)
Definition scenario3_agent : MinesweeperAI.t :=
  MinesweeperAI.mk 8 8 ∅ ∅ ∅
    [ Sentence.mk {[(0, 0); (0, 1); (0, 2)]} 1; Sentence.mk {[(0, 0); (0, 1)]} 1 ].

Definition scenario3_result : MinesweeperAI.t :=
  MinesweeperAI.mk 8 8 ∅ ∅ ∅
    [ Sentence.mk {[(0, 0); (0, 1); (0, 2)]} 1; Sentence.mk {[(0, 0); (0, 1)]} 1;
      Sentence.mk {[(0, 2)]} 0 ].

(** A fresh 8 x 8 agent told that (7, 7) has one mined neighbour and that
    (0, 0) has three. *)
Definition looping_agent : MinesweeperAI.t :=
  MinesweeperAI.mk 8 8 {[(0, 0); (7, 7)]} {[(0, 1); (1, 0); (1, 1)]} {[(0, 0); (7, 7)]}
    [ Sentence.mk {[(6, 6); (6, 7); (7, 6)]} 1; Sentence.mk ∅ 0 ].

(** The number of visits that a sentence [s] can still cause in the loop of
    step 5, for the new sentence [n]: itself, and the sentences derived
    from it in turn. *)
Definition visits (n s : Sentence.t) : nat :=
  if decide (Sentence.cells n = ∅) then S (Z.to_nat (Sentence.count s))
  else if decide (Sentence.cells n ⊆ Sentence.cells s) then 2%nat
  else 1%nat.

(** The visits still to come when the loop is at position [i]. *)
Definition load (n : Sentence.t) (i : nat) (K : list Sentence.t) : nat :=
  sum_list_with (visits n) (drop i K).

(** When the loop of step 5 ends, for the new sentence [n] and the
    knowledge [K] at its start. *)
Definition subsumption_ends (n : Sentence.t) (K : list Sentence.t) : Prop :=
  Sentence.cells n ≠ ∅ ∨ 0 ≤ Sentence.count n ∨ ∀ s, s ∈ K → Sentence.count s ≤ 0.

(** ** Truthful reports

    The mined cells of a board are the cells of [self.mines] in bounds (the
    constructor only mines cells in bounds). *)
Definition layout (g : Minesweeper.t) : gset Cell :=
  filter (λ c, (0 ≤ c.1 < Minesweeper.height g) ∧ (0 ≤ c.2 < Minesweeper.width g))
    (Minesweeper.mines g).

(** A sentence, and an agent, that say the truth about the mined cells [B]. *)
Definition true_of (B : gset Cell) (s : Sentence.t) : Prop :=
  len (Sentence.cells s ∩ B) = Sentence.count s.

Definition sound (B : gset Cell) (a : MinesweeperAI.t) : Prop :=
  MinesweeperAI.mines a ⊆ B ∧
  MinesweeperAI.safes a ## B ∧
  ∀ s, s ∈ MinesweeperAI.knowledge a → true_of B s.

(** The cell [cell] of the board [g] can be revealed: it is in bounds and
    is not a mine. *)
Definition revealable (g : Minesweeper.t) (cell : Cell) : Prop :=
  (0 ≤ cell.1 < Minesweeper.height g) ∧ (0 ≤ cell.2 < Minesweeper.width g) ∧
  Minesweeper.is_mine cell g = false.

(** The agents reached from a fresh agent of the size of the board [g] by
    calls of [add_knowledge] that report what [g] answers. *)
Inductive told (g : Minesweeper.t) : MinesweeperAI.t → Prop :=
| told_fresh :
    told g (MinesweeperAI.init (Minesweeper.height g) (Minesweeper.width g))
| told_more a fuel cell a' :
    told g a →
    revealable g cell →
    MinesweeperAI.add_knowledge fuel cell (Minesweeper.nearby_mines cell g) a = Ok (tt, a') →
    told g a'.

(** The agent [a'] knows at least the mines, safe cells and moves of [a],
    on the same board size. *)
Definition extends (a a' : MinesweeperAI.t) : Prop :=
  MinesweeperAI.mines a ⊆ MinesweeperAI.mines a' ∧
  MinesweeperAI.safes a ⊆ MinesweeperAI.safes a' ∧
  MinesweeperAI.moves_made a ⊆ MinesweeperAI.moves_made a' ∧
  MinesweeperAI.height a' = MinesweeperAI.height a ∧
  MinesweeperAI.width a' = MinesweeperAI.width a.


(** ** Invariants of the agent

    The sentences of [knowledge] only mention cells of the board whose
    status is still open: cells in bounds that are neither in [mines] nor
    in [safes]. *)
Definition tidy (a : MinesweeperAI.t) : Prop :=
  ∀ s, s ∈ MinesweeperAI.knowledge a →
    ∀ u, u ∈ Sentence.cells s →
      in_bounds a u ∧ u ∉ MinesweeperAI.mines a ∧ u ∉ MinesweeperAI.safes a.

(** The agents reached from a fresh agent by calls that return. *)
Inductive reached (height width : Z) : MinesweeperAI.t → Prop :=
| reached_fresh : reached height width (MinesweeperAI.init height width)
| reached_more a fuel c a' :
    reached height width a →
    perform fuel c a = Ok (tt, a') →
    reached height width a'.

(** The cells that the sentences of [knowledge] mention. *)
Definition mentioned (a : MinesweeperAI.t) : gset Cell :=
  ⋃ (Sentence.cells <$> MinesweeperAI.knowledge a).

(** The grid [self.board] and the set [self.mines] agree: the grid has
    [height] rows of [width] entries, an entry is [True] exactly at the cells
    of [mines], and every cell of [mines] is on the grid. *)
Definition agrees (g : Grid.t) : Prop :=
  length (Grid.board g) = Z.to_nat (Grid.height g) ∧
  (∀ i row, Grid.board g !! i = Some row → length row = Z.to_nat (Grid.width g)) ∧
  (∀ i j row b, Grid.board g !! i = Some row → row !! j = Some b →
     b = bool_decide ((Z.of_nat i, Z.of_nat j) ∈ Grid.mines g)) ∧
  (∀ u, u ∈ Grid.mines g →
     (0 ≤ u.1 < Grid.height g) ∧ (0 ≤ u.2 < Grid.width g)).

(** An 8 x 8 board with a single mine at (1, 0), and the fresh agent after
    the board's answers for (0, 0) and for (0, 2): the first sentence, which
    the scan had visited before the second one cleared its other cells,
    says that (1, 0) is a mine, and [mines] is empty. *)
Definition cascade_board : Minesweeper.t := Minesweeper.mk 8 8 {[(1, 0)]}.

Definition cascade_agent : MinesweeperAI.t :=
  MinesweeperAI.mk 8 8 {[(0, 0); (0, 2)]} ∅
    {[(0, 0); (0, 1); (0, 2); (0, 3); (1, 1); (1, 2); (1, 3)]}
    [Sentence.mk {[(1, 0)]} 1; Sentence.mk ∅ 0].

(** The fresh 8 x 8 agent after the answer 1 for (1, 1). *)
Definition center_agent : MinesweeperAI.t :=
  MinesweeperAI.mk 8 8 {[(1, 1)]} ∅ {[(1, 1)]}
    [Sentence.mk {[(0, 0); (0, 1); (0, 2); (1, 0); (1, 2); (2, 0); (2, 1); (2, 2)]} 1].

(** ** Basic facts on the monad *)

Lemma bind_ok {S A B : Type} (m : M S A) (k : A → M S B) s a s' :
  m s = Ok (a, s') → bind m k s = k a s'.
Proof. unfold bind. by intros ->. Qed.

(** ** Sentence methods, as equations *)

Lemma known_mines_run (s : Sentence.t) :
  Sentence.known_mines s = Ok (sure_mines s, s).
Proof.
  unfold Sentence.known_mines, sure_mines, bind, get, ret.
  destruct (decide _) as [[H1 H2]|H].
  - rewrite !bool_decide_eq_true_2; done.
  - destruct (bool_decide (len _ = _)) eqn:E1; [|done].
    destruct (bool_decide (_ ≠ 0)) eqn:E2; [|done].
    apply bool_decide_eq_true in E1, E2. tauto.
Qed.

Lemma known_safes_run (s : Sentence.t) :
  Sentence.known_safes s = Ok (sure_safes s, s).
Proof.
  unfold Sentence.known_safes, sure_safes, bind, get, ret.
  destruct (decide _) as [H0|H0];
    [rewrite bool_decide_eq_true_2|rewrite bool_decide_eq_false_2]; done.
Qed.

Lemma sentence_eq (s1 s2 : Sentence.t) :
  Sentence.cells s1 = Sentence.cells s2 → Sentence.count s1 = Sentence.count s2 → s1 = s2.
Proof. destruct s1, s2; simpl; congruence. Qed.

Lemma len_singleton_inter (X : gset Cell) (c : Cell) :
  len (X ∩ {[c]}) = if decide (c ∈ X) then 1 else 0.
Proof.
  unfold len. destruct (decide (c ∈ X)).
  - replace (X ∩ {[c]}) with ({[c]} : gset Cell) by set_solver.
    by rewrite size_singleton.
  - replace (X ∩ {[c]}) with (∅ : gset Cell) by set_solver.
    by rewrite size_empty.
Qed.

Lemma mark_mine_run (c : Cell) (s : Sentence.t) :
  Sentence.mark_mine c s = Ok (tt, strike_mines {[c]} s).
Proof.
  unfold Sentence.mark_mine, Sentence.cells_remove, set_remove, strike_mines.
  unfold bind, get, put, modify, lift, ret, Sentence.set_cells, Sentence.set_count.
  rewrite len_singleton_inter. case_bool_decide as Hc; simpl.
  - rewrite bool_decide_eq_true_2, decide_True by done. done.
  - rewrite decide_False by done. do 2 f_equal.
    apply sentence_eq; simpl; [set_solver|lia].
Qed.

Lemma mark_safe_run (c : Cell) (s : Sentence.t) :
  Sentence.mark_safe c s = Ok (tt, strike_safes {[c]} s).
Proof.
  unfold Sentence.mark_safe, Sentence.cells_remove, set_remove, strike_safes.
  unfold bind, get, put, lift, ret, Sentence.set_cells.
  case_bool_decide as Hc; simpl.
  - by rewrite bool_decide_eq_true_2.
  - do 2 f_equal. apply sentence_eq; simpl; [set_solver|done].
Qed.

(** ** Agent methods, as equations *)

Section agent_equations.
Import MinesweeperAI.

Lemma on_sentence_run {A : Type} (i : nat) (m : M Sentence.t A) a s r s' :
  knowledge a !! i = Some s →
  m s = Ok (r, s') →
  on_sentence i m a = Ok (r, set_knowledge (<[i:=s']> (knowledge a)) a).
Proof. unfold on_sentence. by intros -> ->. Qed.

Lemma set_knowledge_id a : set_knowledge (knowledge a) a = a.
Proof. by destruct a. Qed.

(** Reading a sentence leaves the agent as it is. *)
Lemma on_sentence_read {A : Type} (i : nat) (m : M Sentence.t A) a s r :
  knowledge a !! i = Some s →
  m s = Ok (r, s) →
  on_sentence i m a = Ok (r, a).
Proof.
  intros Hi Hm. rewrite (on_sentence_run _ _ _ _ _ _ Hi Hm).
  by rewrite list_insert_id, set_knowledge_id.
Qed.

Lemma for_range_run (m : M Sentence.t unit) (f : Sentence.t → Sentence.t) :
  (∀ s, m s = Ok (tt, f s)) →
  ∀ rest pre a,
    knowledge a = pre ++ rest →
    for_range (length rest) (length pre) (λ i, on_sentence i m) a
    = Ok (tt, set_knowledge (pre ++ (f <$> rest)) a).
Proof.
  intros Hm. induction rest as [|x rest IH]; intros pre a HK; simpl.
  - unfold ret. rewrite app_nil_r in *. by rewrite <- HK, set_knowledge_id.
  - assert (Hx : knowledge a !! length pre = Some x).
    { rewrite HK. by rewrite list_lookup_middle. }
    rewrite (bind_ok _ _ _ _ _ (on_sentence_run _ _ _ _ _ _ Hx (Hm x))).
    replace (S (length pre)) with (length (pre ++ [f x]))
      by (rewrite length_app; simpl; lia).
    rewrite (IH (pre ++ [f x])).
    + destruct a; unfold set_knowledge; simpl. by rewrite <- app_assoc.
    + simpl. rewrite HK. rewrite <- app_assoc. simpl.
      by rewrite insert_app_r_alt, Nat.sub_diag by lia.
Qed.

Lemma each_sentence_run (m : M Sentence.t unit) (f : Sentence.t → Sentence.t) a :
  (∀ s, m s = Ok (tt, f s)) →
  each_sentence m a = Ok (tt, set_knowledge (f <$> knowledge a) a).
Proof.
  intros Hm. unfold each_sentence, bind, get.
  apply (for_range_run m f Hm (knowledge a) [] a). done.
Qed.

Lemma ai_mark_mine_run (c : Cell) a : mark_mine c a = Ok (tt, flag_mines {[c]} a).
Proof.
  unfold mark_mine, bind, modify.
  rewrite (each_sentence_run _ _ _ (mark_mine_run c)). by destruct a.
Qed.

Lemma ai_mark_safe_run (c : Cell) a : mark_safe c a = Ok (tt, flag_safes {[c]} a).
Proof.
  unfold mark_safe, bind, modify.
  rewrite (each_sentence_run _ _ _ (mark_safe_run c)). by destruct a.
Qed.

End agent_equations.

(** ** Marking sets of cells *)

Lemma len_union_disjoint (X Y : gset Cell) : X ## Y → len (X ∪ Y) = len X + len Y.
Proof. intros H. unfold len. rewrite size_union by done. lia. Qed.

Lemma len_empty : len ∅ = 0.
Proof. unfold len. by rewrite size_empty. Qed.

Lemma len_nonneg (X : gset Cell) : 0 ≤ len X.
Proof. unfold len. lia. Qed.

Lemma len_zero (X : gset Cell) : len X = 0 → X = ∅.
Proof.
  unfold len. intros H. assert (H0 : size X = 0%nat) by lia.
  apply size_empty_inv in H0. by apply leibniz_equiv.
Qed.

Lemma strike_mines_empty s : strike_mines ∅ s = s.
Proof.
  apply sentence_eq; simpl; [set_solver|].
  replace (Sentence.cells s ∩ ∅) with (∅ : gset Cell) by set_solver.
  rewrite len_empty. lia.
Qed.

Lemma strike_safes_empty s : strike_safes ∅ s = s.
Proof. apply sentence_eq; simpl; [set_solver|done]. Qed.

Lemma strike_mines_union X Y s :
  strike_mines Y (strike_mines X s) = strike_mines (X ∪ Y) s.
Proof.
  apply sentence_eq; simpl; [set_solver|].
  replace (Sentence.cells s ∩ (X ∪ Y))
    with ((Sentence.cells s ∩ X) ∪ (Sentence.cells s ∖ X ∩ Y)).
  - rewrite len_union_disjoint by set_solver. lia.
  - apply set_eq. intros x. destruct (decide (x ∈ X)); set_solver.
Qed.

Lemma strike_safes_union X Y s :
  strike_safes Y (strike_safes X s) = strike_safes (X ∪ Y) s.
Proof. apply sentence_eq; simpl; [set_solver|done]. Qed.

Lemma flag_mines_empty a : flag_mines ∅ a = a.
Proof.
  destruct a as [h w mm mi sa K]. unfold flag_mines; simpl. f_equal; [set_solver|].
  rewrite <- (list_fmap_id K) at 2. apply list_fmap_ext. intros. apply strike_mines_empty.
Qed.

Lemma flag_safes_empty a : flag_safes ∅ a = a.
Proof.
  destruct a as [h w mm mi sa K]. unfold flag_safes; simpl. f_equal; [set_solver|].
  rewrite <- (list_fmap_id K) at 2. apply list_fmap_ext. intros. apply strike_safes_empty.
Qed.

Lemma flag_mines_union X Y a : flag_mines Y (flag_mines X a) = flag_mines (X ∪ Y) a.
Proof.
  destruct a as [h w mm mi sa K]. unfold flag_mines; simpl. f_equal; [set_solver|].
  rewrite <- list_fmap_compose. apply list_fmap_ext. intros. apply strike_mines_union.
Qed.

Lemma flag_safes_union X Y a : flag_safes Y (flag_safes X a) = flag_safes (X ∪ Y) a.
Proof.
  destruct a as [h w mm mi sa K]. unfold flag_safes; simpl. f_equal; [set_solver|].
  rewrite <- list_fmap_compose. apply list_fmap_ext. intros. apply strike_safes_union.
Qed.

Lemma for_each_mark_mine (l : list Cell) a :
  for_each l MinesweeperAI.mark_mine a = Ok (tt, flag_mines (list_to_set l) a).
Proof.
  revert a. induction l as [|c l IH]; intros a; simpl.
  - by rewrite flag_mines_empty.
  - rewrite (bind_ok _ _ _ _ _ (ai_mark_mine_run c a)), IH.
    by rewrite flag_mines_union.
Qed.

Lemma for_each_mark_safe (l : list Cell) a :
  for_each l MinesweeperAI.mark_safe a = Ok (tt, flag_safes (list_to_set l) a).
Proof.
  revert a. induction l as [|c l IH]; intros a; simpl.
  - by rewrite flag_safes_empty.
  - rewrite (bind_ok _ _ _ _ _ (ai_mark_safe_run c a)), IH.
    by rewrite flag_safes_union.
Qed.

Lemma mark_all_mines (X : gset Cell) a :
  for_each (elements X) MinesweeperAI.mark_mine a = Ok (tt, flag_mines X a).
Proof. by rewrite for_each_mark_mine, list_to_set_elements_L. Qed.

Lemma mark_all_safes (X : gset Cell) a :
  for_each (elements X) MinesweeperAI.mark_safe a = Ok (tt, flag_safes X a).
Proof. by rewrite for_each_mark_safe, list_to_set_elements_L. Qed.

(** ** The loops of [add_knowledge] *)

Section loops.
Import MinesweeperAI.

Lemma for_knowledge_done fuel i body a :
  (length (knowledge a) ≤ i)%nat → for_knowledge fuel i body a = Ok (tt, a).
Proof.
  intros H. destruct fuel; simpl; by rewrite bool_decide_eq_false_2 by lia.
Qed.

Lemma for_knowledge_step fuel i body a a' :
  (i < length (knowledge a))%nat →
  body i a = Ok (tt, a') →
  for_knowledge (S fuel) i body a = for_knowledge fuel (S i) body a'.
Proof.
  intros H Hb. simpl. rewrite bool_decide_eq_true_2 by done.
  by rewrite (bind_ok _ _ _ _ _ Hb).
Qed.

Lemma for_knowledge_stuck i body a :
  (i < length (knowledge a))%nat → for_knowledge 0 i body a = OutOfFuel.
Proof. intros H. simpl. by rewrite bool_decide_eq_true_2. Qed.

Lemma truthy_true X : X ≠ ∅ → truthy X = true.
Proof. intros. unfold truthy. by apply bool_decide_eq_true_2. Qed.

Lemma truthy_false X : X = ∅ → truthy X = false.
Proof. intros. unfold truthy. apply bool_decide_eq_false_2. by intros []. Qed.

Lemma not_nonempty (X : gset Cell) : ¬ X ≠ ∅ → X = ∅.
Proof. intros H. destruct (decide (X = ∅)); [done|by destruct H]. Qed.

Lemma sure_mines_cells s : sure_mines s ≠ ∅ → sure_mines s = Sentence.cells s.
Proof. unfold sure_mines. by destruct (decide _). Qed.

Lemma sure_safes_cells s : sure_safes s ≠ ∅ → sure_safes s = Sentence.cells s.
Proof. unfold sure_safes. by destruct (decide _). Qed.

(** A sentence whose cells were all marked as mines (it said so itself),
    or all marked as safe, is left empty with count 0. *)
Lemma strike_sure_mines s :
  sure_mines s ≠ ∅ → strike_mines (sure_mines s) s = Sentence.mk ∅ 0.
Proof.
  unfold sure_mines. destruct (decide _) as [[H1 H2]|]; [intros _|done].
  apply sentence_eq; simpl; [set_solver|].
  replace (Sentence.cells s ∩ Sentence.cells s) with (Sentence.cells s) by set_solver.
  lia.
Qed.

Lemma strike_sure_safes s :
  sure_safes s ≠ ∅ → strike_safes (sure_safes s) s = Sentence.mk ∅ 0.
Proof.
  unfold sure_safes. destruct (decide _) as [H1|]; [intros _|done].
  apply sentence_eq; simpl; [set_solver|done].
Qed.

Lemma settled_empty : settled (Sentence.mk ∅ 0).
Proof.
  split.
  - unfold sure_mines. by case_decide.
  - unfold sure_safes. by case_decide.
Qed.

Lemma infer_run i a s :
  knowledge a !! i = Some s → infer i a = Ok (tt, infer_effect s a).
Proof.
  intros Hi. unfold infer, infer_effect.
  pose proof (on_sentence_read i _ a s _ Hi (known_mines_run s)) as Hkm.
  pose proof (on_sentence_read i _ a s _ Hi (known_safes_run s)) as Hks.
  unfold bind. rewrite Hkm.
  destruct (decide (sure_mines s ≠ ∅)) as [Hm|Hm].
  - rewrite (truthy_true _ Hm), Hkm, mark_all_mines.
    assert (Hi' : knowledge (flag_mines (sure_mines s) a) !! i
                  = Some (Sentence.mk ∅ 0)).
    { simpl. rewrite list_lookup_fmap, Hi. simpl. by rewrite strike_sure_mines. }
    rewrite (on_sentence_read i _ _ _ _ Hi' (known_safes_run _)).
    rewrite truthy_false; [done|]. apply settled_empty.
  - rewrite truthy_false by (by apply not_nonempty). unfold ret at 1.
    rewrite Hks.
    destruct (decide (sure_safes s ≠ ∅)) as [Hs|Hs].
    + by rewrite (truthy_true _ Hs), Hks, mark_all_safes.
    + by rewrite truthy_false by (by apply not_nonempty).
Qed.

End loops.

(** ** Step 3: the new sentence *)

Section survey.
Import MinesweeperAI.

Lemma block_explicit (i j : Z) :
  block (i, j) =
    [ (i - 1, j - 1); (i - 1, j); (i - 1, j + 1);
      (i, j - 1); (i, j); (i, j + 1);
      (i + 1, j - 1); (i + 1, j); (i + 1, j + 1) ].
Proof.
  unfold block, seqZ. simpl.
  repeat (f_equal; try lia).
Qed.

Lemma block_NoDup (cell : Cell) : NoDup (block cell).
Proof.
  destruct cell as [i j]. rewrite block_explicit.
  repeat (apply NoDup_cons; split;
          [rewrite ?elem_of_cons, elem_of_nil; intros H;
           repeat (destruct H as [H|H]; [inversion H; lia|]); done|]).
  apply NoDup_nil_2.
Qed.

Lemma elem_of_block (cell u : Cell) :
  u ∈ block cell ↔ (cell.1 - 1 ≤ u.1 ≤ cell.1 + 1) ∧ (cell.2 - 1 ≤ u.2 ≤ cell.2 + 1).
Proof.
  destruct cell as [i j], u as [r c]. rewrite block_explicit. simpl.
  rewrite !elem_of_cons, elem_of_nil. split.
  - intros H. repeat (destruct H as [H|H]; [inversion H; lia|]). done.
  - intros [H1 H2].
    assert (Hr : r = i - 1 ∨ r = i ∨ r = i + 1) by lia.
    assert (Hc : c = j - 1 ∨ c = j ∨ c = j + 1) by lia.
    destruct Hr as [->|[->| ->]], Hc as [->|[->| ->]]; tauto.
Qed.

(** [neighbours] is the 8-neighbourhood. *)
Lemma elem_of_neighbours (cell u : Cell) :
  u ∈ neighbours cell ↔
  u ≠ cell ∧ (cell.1 - 1 ≤ u.1 ≤ cell.1 + 1) ∧ (cell.2 - 1 ≤ u.2 ≤ cell.2 + 1).
Proof.
  unfold neighbours. rewrite elem_of_difference, elem_of_list_to_set, elem_of_block.
  rewrite elem_of_singleton. tauto.
Qed.

Lemma survey_fold (a : t) (cell : Cell) (l : list Cell) (n : Z) (X : gset Cell) :
  foldl (survey a cell) (n, X) l =
    (n - Z.of_nat (length (filter (λ u, u ≠ cell ∧ u ∉ safes a ∧ u ∈ mines a) l)),
     list_to_set (filter (λ u, u ≠ cell ∧ u ∉ safes a ∧ u ∉ mines a ∧ in_bounds a u) l) ∪ X).
Proof.
  revert n X. induction l as [|u l IH]; intros n X; cbn [foldl].
  - rewrite !filter_nil. simpl. f_equal; [lia|set_solver].
  - destruct (survey a cell (n, X) u) as [n' X'] eqn:E. rewrite IH.
    unfold survey in E.
    destruct (decide (cell = u)) as [->|Hne].
    { rewrite bool_decide_eq_true_2 in E by done. simpl in E.
      injection E as <- <-. rewrite !filter_cons_False by tauto. done. }
    rewrite (bool_decide_eq_false_2 (cell = u)) in E by done. simpl in E.
    destruct (decide (u ∈ safes a)) as [Hs|Hs].
    { rewrite bool_decide_eq_true_2 in E by done.
      injection E as <- <-. rewrite !filter_cons_False by tauto. done. }
    rewrite (bool_decide_eq_false_2 (u ∈ safes a)) in E by done.
    destruct (decide (u ∈ mines a)) as [Hm|Hm].
    { rewrite bool_decide_eq_true_2 in E by done. injection E as <- <-.
      rewrite (filter_cons_True _ u) by (split_and!; done).
      rewrite (filter_cons_False _ u) by tauto.
      simpl. f_equal. lia. }
    rewrite (bool_decide_eq_false_2 (u ∈ mines a)) in E by done.
    rewrite (filter_cons_False _ u) by tauto.
    destruct (decide (in_bounds a u)) as [Hb|Hb].
    + destruct Hb as [Hb1 Hb2]. rewrite !bool_decide_eq_true_2 in E by done.
      simpl in E. injection E as <- <-.
      rewrite (filter_cons_True _ u) by (split_and!; done).
      f_equal. set_solver.
    + rewrite (filter_cons_False _ u) by tauto.
      destruct (bool_decide (0 ≤ u.1 < height a)) eqn:E1;
        destruct (bool_decide (0 ≤ u.2 < width a)) eqn:E2; simpl in E;
        injection E as <- <-; try done.
      apply bool_decide_eq_true in E1, E2. by destruct Hb.
Qed.

End survey.

Section observe.
Import MinesweeperAI.

Lemma length_filter_len (Q : Cell → Prop) `{!∀ u, Decision (Q u)} (l : list Cell) :
  NoDup l → Z.of_nat (length (filter Q l)) = len (list_to_set (filter Q l)).
Proof.
  intros Hl. unfold len. rewrite size_list_to_set; [done|]. by apply NoDup_filter.
Qed.

Lemma observe_run (cell : Cell) (count : Z) a :
  observe cell count a = Ok (length (knowledge a), observed a cell count).
Proof.
  unfold observe, bind, modify. rewrite ai_mark_safe_run. unfold get.
  rewrite survey_fold. unfold ret, observed, fresh_cells, fresh_count, neighbours.
  pose proof (block_NoDup cell) as HB. set (B := block cell) in *. clearbody B.
  f_equal. f_equal.
  - simpl. by rewrite length_fmap.
  - unfold set_knowledge. simpl. f_equal. f_equal. f_equal.
    apply sentence_eq; simpl.
    + apply set_eq. intros u.
      rewrite elem_of_union, elem_of_list_to_set, list_elem_of_filter.
      rewrite !elem_of_difference, elem_of_filter, elem_of_difference.
      rewrite elem_of_list_to_set. unfold in_bounds. simpl. set_solver.
    + rewrite length_filter_len by done.
      do 2 f_equal. apply set_eq. intros u.
      rewrite elem_of_list_to_set, list_elem_of_filter. set_solver.
Qed.

End observe.

(** ** Step 4: the scan *)

Section scan.
Import MinesweeperAI.

Lemma infer_effect_length s a :
  length (knowledge (infer_effect s a)) = length (knowledge a).
Proof.
  unfold infer_effect. repeat case_decide; simpl; by rewrite ?length_fmap.
Qed.

Lemma scan_length n i a : length (knowledge (scan n i a)) = length (knowledge a).
Proof.
  revert i a. induction n as [|n IH]; intros i a; simpl; [done|].
  destruct (knowledge a !! i); [|done]. by rewrite IH, infer_effect_length.
Qed.

(** With fuel for every position that is left, the scan returns. *)
Lemma scan_run fuel n i a :
  length (knowledge a) = (i + n)%nat → (n ≤ fuel)%nat →
  for_knowledge fuel i infer a = Ok (tt, scan n i a).
Proof.
  revert fuel i a. induction n as [|n IH]; intros fuel i a Hlen Hfuel.
  - simpl. apply for_knowledge_done. lia.
  - destruct fuel as [|fuel]; [lia|].
    destruct (lookup_lt_is_Some_2 (knowledge a) i) as [s Hs]; [lia|].
    assert (Hlt : (i < length (knowledge a))%nat) by lia.
    rewrite (for_knowledge_step _ _ _ _ _ Hlt (infer_run _ _ _ Hs)).
    simpl. rewrite Hs. apply IH; [|lia]. rewrite infer_effect_length. lia.
Qed.

(** With less fuel, it does not. *)
Lemma scan_starved fuel n i a :
  length (knowledge a) = (i + n)%nat → (fuel < n)%nat →
  for_knowledge fuel i infer a = OutOfFuel.
Proof.
  revert n i a. induction fuel as [|fuel IH]; intros n i a Hlen Hfuel.
  - apply for_knowledge_stuck. lia.
  - destruct n as [|n]; [lia|].
    destruct (lookup_lt_is_Some_2 (knowledge a) i) as [s Hs]; [lia|].
    assert (Hlt : (i < length (knowledge a))%nat) by lia.
    rewrite (for_knowledge_step _ _ _ _ _ Hlt (infer_run _ _ _ Hs)).
    apply (IH n); [|lia]. rewrite infer_effect_length. lia.
Qed.

(** The sentence that the scan has just visited is settled. *)
Lemma infer_effect_settles i a s :
  knowledge a !! i = Some s →
  ∃ s', knowledge (infer_effect s a) !! i = Some s' ∧ settled s'.
Proof.
  intros Hi. unfold infer_effect.
  destruct (decide (sure_mines s ≠ ∅)) as [Hm|Hm].
  { exists (Sentence.mk ∅ 0). split; [|apply settled_empty].
    simpl. rewrite list_lookup_fmap, Hi. simpl. by rewrite strike_sure_mines. }
  destruct (decide (sure_safes s ≠ ∅)) as [Hs|Hs].
  { exists (Sentence.mk ∅ 0). split; [|apply settled_empty].
    simpl. rewrite list_lookup_fmap, Hi. simpl. by rewrite strike_sure_safes. }
  exists s. split; [done|]. split; by apply not_nonempty.
Qed.

Lemma scan_last n i a :
  length (knowledge a) = (i + S n)%nat →
  ∃ s', knowledge (scan (S n) i a) !! (i + n)%nat = Some s' ∧ settled s'.
Proof.
  revert i a. induction n as [|n IH]; intros i a Hlen.
  - destruct (lookup_lt_is_Some_2 (knowledge a) i) as [s Hs]; [lia|].
    simpl. rewrite Hs. rewrite Nat.add_0_r. by apply infer_effect_settles.
  - destruct (lookup_lt_is_Some_2 (knowledge a) i) as [s Hs]; [lia|].
    change (scan (S (S n)) i a) with
      (match knowledge a !! i with
       | Some s => scan (S n) (S i) (infer_effect s a) | None => a end).
    rewrite Hs. replace (i + S n)%nat with (S i + n)%nat by lia.
    apply IH. rewrite infer_effect_length. lia.
Qed.

End scan.

(** ** Step 5: subsumption *)

Section subsume.
Import MinesweeperAI.

Lemma sentence_eq_true (x y : Sentence.t) : Sentence.eq x y = true ↔ x = y.
Proof.
  unfold Sentence.eq. rewrite andb_true_iff, !bool_decide_eq_true.
  split; [intros []; by apply sentence_eq|by intros ->].
Qed.

Lemma in_knowledge_true (x : Sentence.t) K : in_knowledge x K = true ↔ x ∈ K.
Proof.
  unfold in_knowledge. rewrite existsb_exists. split.
  - intros (y & Hy & Heq). apply sentence_eq_true in Heq as ->. by apply list_elem_of_In.
  - intros Hx. exists x. split; [by apply list_elem_of_In|by apply sentence_eq_true].
Qed.

Lemma subsume_run new i a n s :
  knowledge a !! new = Some n →
  knowledge a !! i = Some s →
  subsume new i a = Ok (tt, set_knowledge (subsume_effect n s (knowledge a)) a).
Proof.
  intros Hn Hs. unfold subsume, bind.
  rewrite (on_sentence_read i get a s s Hs eq_refl).
  rewrite (on_sentence_read new get a n n Hn eq_refl).
  unfold get, subsume_effect, triggers, candidate.
  destruct (bool_decide (Sentence.cells n ⊆ Sentence.cells s)) eqn:E1; simpl.
  2: { apply bool_decide_eq_false in E1. rewrite decide_False by tauto.
       by rewrite set_knowledge_id. }
  apply bool_decide_eq_true in E1.
  destruct (bool_decide (Sentence.count s > 0)) eqn:E2; simpl.
  2: { apply bool_decide_eq_false in E2. rewrite decide_False by tauto.
       by rewrite set_knowledge_id. }
  apply bool_decide_eq_true in E2.
  destruct (Sentence.eq n s) eqn:E3; simpl.
  { apply sentence_eq_true in E3. rewrite decide_False by tauto.
    by rewrite set_knowledge_id. }
  assert (n ≠ s) as Hne.
  { intros Heq. apply sentence_eq_true in Heq. congruence. }
  destruct (in_knowledge _ (knowledge a)) eqn:E4; simpl.
  - apply in_knowledge_true in E4. rewrite decide_False by tauto.
    by rewrite set_knowledge_id.
  - rewrite decide_True; [done|]. split_and!; try done.
    intros Hin. apply in_knowledge_true in Hin.
    unfold candidate in *. congruence.
Qed.

Lemma subsume_effect_prefix n s K : ∃ A, subsume_effect n s K = K ++ A.
Proof.
  unfold subsume_effect. case_decide; [by eexists|exists []; by rewrite app_nil_r].
Qed.

Lemma subsume_loop fuel new i a n :
  knowledge a !! new = Some n →
  for_knowledge fuel i (subsume new) a =
    match chase fuel i n (knowledge a) with
    | Some K' => Ok (tt, set_knowledge K' a)
    | None => OutOfFuel
    end.
Proof.
  revert i a. induction fuel as [|fuel IH]; intros i a Hn.
  - destruct (knowledge a !! i) as [s|] eqn:Hs.
    + rewrite for_knowledge_stuck by (by eapply lookup_lt_Some).
      simpl. by rewrite Hs.
    + rewrite for_knowledge_done by (by apply lookup_ge_None).
      simpl. by rewrite Hs, set_knowledge_id.
  - destruct (knowledge a !! i) as [s|] eqn:Hs.
    + assert (Hlt : (i < length (knowledge a))%nat) by (by eapply lookup_lt_Some).
      rewrite (for_knowledge_step _ _ _ _ _ Hlt (subsume_run _ _ _ _ _ Hn Hs)).
      simpl chase. rewrite Hs. rewrite IH.
      * simpl. by destruct (chase _ _ _ _).
      * simpl. destruct (subsume_effect_prefix n s (knowledge a)) as [A ->].
        by apply lookup_app_l_Some.
    + rewrite for_knowledge_done by (by apply lookup_ge_None).
      simpl. by rewrite Hs, set_knowledge_id.
Qed.

End subsume.

(** ** [add_knowledge] as a whole *)

Section add_knowledge.
Import MinesweeperAI.

Lemma observed_length a cell count :
  length (knowledge (observed a cell count)) = S (length (knowledge a)).
Proof. simpl. rewrite length_app, length_fmap. simpl. lia. Qed.

Lemma scanned_length a cell count :
  length (knowledge (scanned a cell count)) = S (length (knowledge a)).
Proof. unfold scanned. by rewrite scan_length, observed_length. Qed.

Lemma new_sentence_lookup a cell count :
  knowledge (scanned a cell count) !! length (knowledge a)
  = Some (new_sentence a cell count).
Proof.
  unfold new_sentence.
  destruct (lookup_lt_is_Some_2 (knowledge (scanned a cell count))
              (length (knowledge a))) as [s ->]; [|done].
  rewrite scanned_length. lia.
Qed.

Lemma new_sentence_settled a cell count : settled (new_sentence a cell count).
Proof.
  destruct (scan_last (length (knowledge a)) 0 (observed a cell count))
    as (s' & Hs' & Hset).
  { by rewrite observed_length. }
  simpl plus in Hs'. fold (scanned a cell count) in Hs'.
  rewrite new_sentence_lookup in Hs'. by injection Hs' as ->.
Qed.

Lemma add_knowledge_run fuel cell count a :
  add_knowledge fuel cell count a =
    if decide (length (knowledge a) < fuel)%nat then
      match chase fuel 0 (new_sentence a cell count)
              (knowledge (scanned a cell count)) with
      | Some K' => Ok (tt, set_knowledge K' (scanned a cell count))
      | None => OutOfFuel
      end
    else OutOfFuel.
Proof.
  unfold add_knowledge, bind. rewrite observe_run.
  destruct (decide (length (knowledge a) < fuel)%nat) as [Hf|Hf].
  - rewrite (scan_run fuel (S (length (knowledge a))) 0).
    + fold (scanned a cell count).
      apply subsume_loop, new_sentence_lookup.
    + by rewrite observed_length.
    + lia.
  - rewrite (scan_starved fuel (S (length (knowledge a))) 0); [done| |lia].
    by rewrite observed_length.
Qed.

End add_knowledge.

(** * Properties *)

(** ** Sentence.known_mines *)

(** C7. [known_mines()] returns the whole cell set when
    [count == |cells|] and [count != 0], the empty set in every other case,
    and leaves the sentence unchanged. *)
Theorem known_mines_spec (s : Sentence.t) :
  Sentence.known_mines s =
    Ok (if decide (Sentence.count s = len (Sentence.cells s) ∧ Sentence.count s ≠ 0)
        then Sentence.cells s else ∅,
        s).
Proof.
  rewrite known_mines_run. unfold sure_mines.
  destruct (decide (len _ = _ ∧ _)) as [[H1 H2]|H1];
    destruct (decide (_ = len _ ∧ _)) as [[H3 H4]|H3]; try done.
  - destruct H3. by split.
  - destruct H1. by split.
Qed.

(** ** MinesweeperAI.make_safe_move *)

Lemma random_choice_elem {A : Type} (rnd : nat) (seq : list A) :
  seq ≠ [] → ∃ x, random_choice rnd seq = Ok x ∧ x ∈ seq.
Proof.
  intros Hne. unfold random_choice.
  assert (Hlen : (0 < length seq)%nat) by (destruct seq; [done|simpl; lia]).
  destruct (lookup_lt_is_Some_2 seq (rnd `mod` length seq)%nat) as [x Hx].
  { apply Nat.mod_upper_bound. lia. }
  rewrite Hx. exists x. split; [done|]. by eapply list_elem_of_lookup_2.
Qed.

(** C8. [make_safe_move] leaves the agent unchanged; it returns a cell of
    [safes - moves_made] when that set is not empty and [None], without
    raising, when it is empty, whatever the random source. *)
Theorem make_safe_move_spec (rnd : nat) (a : MinesweeperAI.t) :
  ∃ r : option Cell,
    MinesweeperAI.make_safe_move rnd a = Ok (r, a) ∧
    match r with
    | Some c => c ∈ MinesweeperAI.safes a ∖ MinesweeperAI.moves_made a
    | None => MinesweeperAI.safes a ∖ MinesweeperAI.moves_made a = ∅
    end.
Proof.
  unfold MinesweeperAI.make_safe_move, bind, get.
  set (moves := MinesweeperAI.safes a ∖ MinesweeperAI.moves_made a).
  destruct (decide (moves = ∅)) as [He|Hne].
  - rewrite truthy_false by done. by exists None.
  - rewrite truthy_true by done.
    destruct (random_choice_elem rnd (elements moves)) as (x & Hx & Hin).
    { intros Hnil. apply elements_empty_inv in Hnil. by apply leibniz_equiv in Hnil. }
    unfold lift. rewrite Hx. exists (Some x). split; [done|].
    by apply elem_of_elements in Hin.
Qed.

(** ** End-to-end scenario on the 3 x 3 board *)

(** The statement of C9 fails: (3, 3) is one of the eight neighbours of
    (2, 2), it is off the 3 x 3 board, and it is not in [safes] after the
    call. *)
Lemma corner_reveal_misses_a_neighbour :
  Minesweeper.nearby_mines (2, 2) corner_board = 0 ∧
  MinesweeperAI.add_knowledge 1 (2, 2) 0 (MinesweeperAI.init 3 3) = Ok (tt, corner_agent) ∧
  (3, 3) ∈ neighbours (2, 2) ∧
  (3, 3) ∉ MinesweeperAI.safes corner_agent.
Proof.
  split_and!.
  - by vm_compute.
  - by vm_compute.
  - apply elem_of_neighbours. simpl. split; [done|lia].
  - by vm_compute.
Qed.

(** C9, amended. On the 3 x 3 board whose only mine is at (0, 0), the call
    [add_knowledge((2, 2), 0)] on a fresh agent returns, and [safes] then
    holds (2, 2) and its three neighbours on the board, (1, 1), (1, 2) and
    (2, 1): every neighbour of (2, 2) that is in bounds. *)
Theorem corner_reveal_marks_board_neighbours (fuel : nat) :
  MinesweeperAI.add_knowledge (S fuel) (2, 2)
    (Minesweeper.nearby_mines (2, 2) corner_board) (MinesweeperAI.init 3 3)
  = Ok (tt, corner_agent) ∧
  MinesweeperAI.safes corner_agent
  = {[(2, 2)]} ∪ filter (in_bounds (MinesweeperAI.init 3 3)) (neighbours (2, 2)).
Proof.
  split.
  - rewrite add_knowledge_run. destruct fuel; by vm_compute.
  - by vm_compute.
Qed.

(** ** The count invariant of a sentence *)

Lemma len_difference_singleton (X : gset Cell) (c : Cell) :
  c ∈ X → len (X ∖ {[c]}) = len X - 1.
Proof.
  intros Hc. unfold len. rewrite size_difference by set_solver.
  rewrite size_singleton.
  assert (size X ≠ 0%nat) by (intros H0; apply size_empty_inv in H0; set_solver).
  lia.
Qed.

Lemma difference_singleton_absent (X : gset Cell) (c : Cell) : c ∉ X → X ∖ {[c]} = X.
Proof. set_solver. Qed.

Lemma apply_mark_run (m : mark) (s : Sentence.t) : apply_mark m s = Ok (tt, marked m s).
Proof. destruct m; [apply mark_mine_run|apply mark_safe_run]. Qed.

Lemma marked_well_counted (m : mark) (s : Sentence.t) :
  well_counted s → (well_counted (marked m s) ↔ admissible m s).
Proof.
  unfold well_counted. intros Hs. destruct m as [c|c]; simpl.
  - rewrite len_singleton_inter. destruct (decide (c ∈ Sentence.cells s)) as [Hc|Hc].
    + rewrite len_difference_singleton by done. split; [lia|]. intros H. specialize (H Hc). lia.
    + rewrite difference_singleton_absent by done. split; [done|lia].
  - destruct (decide (c ∈ Sentence.cells s)) as [Hc|Hc].
    + rewrite len_difference_singleton by done. split; [lia|]. intros H. specialize (H Hc). lia.
    + rewrite difference_singleton_absent by done. split; [done|lia].
Qed.

Lemma for_each_apply_mark (ms : list mark) (s : Sentence.t) :
  for_each ms apply_mark s = Ok (tt, foldl (λ s m, marked m s) s ms).
Proof.
  revert s. induction ms as [|m ms IH]; intros s; simpl; [done|].
  by rewrite (bind_ok _ _ _ _ _ (apply_mark_run m s)), IH.
Qed.

Lemma admissible_all_well_counted (ms : list mark) (s : Sentence.t) (k : nat) :
  well_counted s → admissible_all ms s →
  well_counted (foldl (λ s m, marked m s) s (take k ms)).
Proof.
  revert s k. induction ms as [|m ms IH]; intros s k Hs Hadm.
  - by rewrite take_nil.
  - destruct k as [|k]; [done|]. destruct Hadm as [Hm Hms]. simpl.
    apply IH; [|done]. by apply marked_well_counted.
Qed.

(** The statement of C2 fails: marking as safe the only cell of a sentence
    that counts one mine leaves [count = 1 > 0 = |cells|], and marking as a
    mine a cell of a sentence that counts none leaves [count = -1]. *)
Lemma marks_break_count :
  well_counted (Sentence.mk {[(0, 0)]} 1) ∧
  Sentence.mark_safe (0, 0) (Sentence.mk {[(0, 0)]} 1) = Ok (tt, Sentence.mk ∅ 1) ∧
  ¬ well_counted (Sentence.mk ∅ 1) ∧
  well_counted (Sentence.mk {[(0, 0)]} 0) ∧
  Sentence.mark_mine (0, 0) (Sentence.mk {[(0, 0)]} 0) = Ok (tt, Sentence.mk ∅ (-1)) ∧
  ¬ well_counted (Sentence.mk ∅ (-1)).
Proof.
  unfold well_counted. split_and!; try by vm_compute.
  - simpl. rewrite len_empty. lia.
  - simpl. lia.
Qed.

(** C2, amended. For a sentence with [0 <= count <= |cells|], a call
    [mark_mine(c)] keeps the invariant exactly when [c] is not in [cells] or
    [count >= 1], and a call [mark_safe(c)] exactly when [c] is not in
    [cells] or [count < |cells|]; so the invariant holds after each call of
    a finite sequence of calls that all meet these conditions. *)
Theorem marks_keep_count (s : Sentence.t) (ms : list mark) :
  well_counted s →
  (∀ m, ∃ s', apply_mark m s = Ok (tt, s') ∧ (well_counted s' ↔ admissible m s)) ∧
  (admissible_all ms s →
   ∀ k, ∃ s', for_each (take k ms) apply_mark s = Ok (tt, s') ∧ well_counted s').
Proof.
  intros Hs. split.
  - intros m. exists (marked m s). split; [apply apply_mark_run|].
    by apply marked_well_counted.
  - intros Hadm k. eexists. split; [apply for_each_apply_mark|].
    by apply admissible_all_well_counted.
Qed.

Lemma marks_keep_count_witness :
  ∃ s', for_each (take 2%nat [SMine (0, 0); SSafe (0, 1)]) apply_mark
          (Sentence.mk {[(0, 0); (0, 1)]} 1) = Ok (tt, s')
        ∧ well_counted s'.
Proof.
  refine (proj2 (marks_keep_count (Sentence.mk {[(0, 0); (0, 1)]} 1)
                   [SMine (0, 0); SSafe (0, 1)] _) _ 2%nat).
  - unfold well_counted. by vm_compute.
  - simpl. split_and!; [lia| |done]. intros _. by vm_compute.
Defined.

(** ** Faults are not reported *)

(** The statement of C5 fails: a mark that leaves [count = -1] returns
    normally, and so does an [add_knowledge] whose subsumption step derives
    a sentence with count -2, which it appends to [knowledge]. *)
Lemma faults_pass_silently :
  Sentence.mark_mine (0, 0) (Sentence.mk {[(0, 0)]} 0) = Ok (tt, Sentence.mk ∅ (-1)) ∧
  ¬ well_counted (Sentence.mk ∅ (-1)) ∧
  for_each [AddKnowledge (1, 1) 1; AddKnowledge (0, 0) 3] (perform 3)
    (MinesweeperAI.init 8 8) = Ok (tt, overcounted_agent) ∧
  last (MinesweeperAI.knowledge overcounted_agent)
  = Some (candidate (Sentence.mk {[(0, 1); (1, 0)]} 3)
            (Sentence.mk {[(0, 1); (0, 2); (1, 0); (1, 2); (2, 0); (2, 1); (2, 2)]} 1)) ∧
  Sentence.count (candidate (Sentence.mk {[(0, 1); (1, 0)]} 3)
            (Sentence.mk {[(0, 1); (0, 2); (1, 0); (1, 2); (2, 0); (2, 1); (2, 2)]} 1)) < 0.
Proof.
  split_and!; try by vm_compute.
  unfold well_counted. simpl. lia.
Qed.

Lemma perform_never_raises (fuel : nat) (c : call) (a : MinesweeperAI.t) :
  (∃ a', perform fuel c a = Ok (tt, a')) ∨ perform fuel c a = OutOfFuel.
Proof.
  destruct c as [cell count|cell|cell]; simpl.
  - rewrite add_knowledge_run. case_decide; [|by right].
    destruct (chase _ _ _ _); [left; by eexists|by right].
  - left. eexists. apply ai_mark_mine_run.
  - left. eexists. apply ai_mark_safe_run.
Qed.

(** C5, amended. The engine has no fault path.  [Sentence.mark_mine] and
    [Sentence.mark_safe] always return normally, with the cell struck and
    the count adjusted, whether or not the result keeps
    [0 <= count <= |cells|]; the agent's [mark_mine], [mark_safe] and
    [add_knowledge] never raise; and a candidate of the subsumption step
    whose count is negative is appended to [knowledge] like any other. *)
Theorem engine_reports_no_fault :
  (∀ m s, apply_mark m s = Ok (tt, marked m s)) ∧
  (∀ fuel c a, (∃ a', perform fuel c a = Ok (tt, a')) ∨ perform fuel c a = OutOfFuel) ∧
  (∀ new i a n s,
     MinesweeperAI.knowledge a !! new = Some n →
     MinesweeperAI.knowledge a !! i = Some s →
     triggers n s →
     candidate n s ∉ MinesweeperAI.knowledge a →
     Sentence.count (candidate n s) < 0 →
     MinesweeperAI.subsume new i a
     = Ok (tt, MinesweeperAI.set_knowledge
                 (MinesweeperAI.knowledge a ++ [candidate n s]) a)).
Proof.
  split_and!.
  - apply apply_mark_run.
  - apply perform_never_raises.
  - intros new i a n s Hn Hs Ht Hc _. rewrite (subsume_run _ _ _ _ _ Hn Hs).
    unfold subsume_effect. by rewrite decide_True.
Qed.

Lemma engine_reports_no_fault_witness :
  MinesweeperAI.subsume 1 0
    (MinesweeperAI.mk 8 8 ∅ ∅ ∅
       [Sentence.mk {[(0, 0); (0, 1)]} 1; Sentence.mk {[(0, 0)]} 2])
  = Ok (tt, MinesweeperAI.mk 8 8 ∅ ∅ ∅
              [Sentence.mk {[(0, 0); (0, 1)]} 1; Sentence.mk {[(0, 0)]} 2;
               candidate (Sentence.mk {[(0, 0)]} 2) (Sentence.mk {[(0, 0); (0, 1)]} 1)]).
Proof.
  refine (proj2 (proj2 engine_reports_no_fault) 1%nat 0%nat
            (MinesweeperAI.mk 8 8 ∅ ∅ ∅
               [Sentence.mk {[(0, 0); (0, 1)]} 1; Sentence.mk {[(0, 0)]} 2])
            (Sentence.mk {[(0, 0)]} 2) (Sentence.mk {[(0, 0); (0, 1)]} 1) _ _ _ _ _).
  - reflexivity.
  - reflexivity.
  - unfold triggers. simpl. split_and!; [set_solver|lia|by intros [=]].
  - vm_compute. intros H. by repeat (apply elem_of_cons in H as [H|H]; [by vm_compute in H|]);
      apply elem_of_nil in H.
  - simpl. lia.
Defined.

(** ** The sentence built by step 3 *)




(** ** What the scan of step 4 settles *)

Lemma chase_prefix fuel i n K K' : chase fuel i n K = Some K' → ∃ A, K' = K ++ A.
Proof.
  revert i K. induction fuel as [|fuel IH]; intros i K; simpl.
  - destruct (K !! i); [done|]. intros [= <-]. exists []. by rewrite app_nil_r.
  - destruct (K !! i) as [s|].
    + intros H. apply IH in H as [A ->].
      destruct (subsume_effect_prefix n s K) as [A0 ->].
      exists (A0 ++ A). by rewrite app_assoc.
    + intros [= <-]. exists []. by rewrite app_nil_r.
Qed.

Lemma settled_known (s : Sentence.t) :
  settled s → Sentence.known_mines s = Ok (∅, s) ∧ Sentence.known_safes s = Ok (∅, s).
Proof. intros [H1 H2]. by rewrite known_mines_run, known_safes_run, H1, H2. Qed.

(** C1. The knowledge base is not saturated when [add_knowledge] returns,
    although step 4 is written to mark every cell that can be concluded.
    On [cascade_board], whose only mine is at (1, 0), the truthful reports
    [add_knowledge((0, 0), 1)] and [add_knowledge((0, 2), 0)] on a fresh
    agent return with [knowledge[0]] equal to [{(1, 0)} = 1]: the scan
    visited it when it still had three cells, the visit of the next
    sentence marked two of them safe, and the scan did not come back.
    [known_mines()] of that sentence returns (1, 0), which is not in
    [mines]. *)
Lemma scan_misses_cascade :
  Minesweeper.nearby_mines (0, 0) cascade_board = 1 ∧
  Minesweeper.nearby_mines (0, 2) cascade_board = 0 ∧
  for_each [AddKnowledge (0, 0) 1; AddKnowledge (0, 2) 0] (perform 3)
    (MinesweeperAI.init 8 8) = Ok (tt, cascade_agent) ∧
  MinesweeperAI.knowledge cascade_agent !! 0%nat = Some (Sentence.mk {[(1, 0)]} 1) ∧
  Sentence.known_mines (Sentence.mk {[(1, 0)]} 1)
  = Ok ({[(1, 0)]}, Sentence.mk {[(1, 0)]} 1) ∧
  (1, 0) ∉ MinesweeperAI.mines cascade_agent.
Proof. split_and!; by vm_compute. Qed.

(** A sentence derived by step 5 is not scanned in the call that derives
    it either: after the truthful reports for (1, 1) and (0, 0) on
    [lone_board], the last sentence of [knowledge] has count 0 and five
    cells, which [known_safes()] returns. *)
Lemma derived_sentence_left_unscanned :
  Minesweeper.nearby_mines (1, 1) lone_board = 1 ∧
  Minesweeper.nearby_mines (0, 0) lone_board = 1 ∧
  for_each [AddKnowledge (1, 1) 1; AddKnowledge (0, 0) 1] (perform 3)
    (MinesweeperAI.init 8 8) = Ok (tt, unscanned_agent) ∧
  Sentence.mk {[(0, 2); (1, 2); (2, 0); (2, 1); (2, 2)]} 0
    ∈ MinesweeperAI.knowledge unscanned_agent ∧
  Sentence.known_safes (Sentence.mk {[(0, 2); (1, 2); (2, 0); (2, 1); (2, 2)]} 0)
  = Ok ({[(0, 2); (1, 2); (2, 0); (2, 1); (2, 2)]},
        Sentence.mk {[(0, 2); (1, 2); (2, 0); (2, 1); (2, 2)]} 0) ∧
  ({[(0, 2); (1, 2); (2, 0); (2, 1); (2, 2)]} : gset Cell) ≠ ∅.
Proof.
  split_and!; try by vm_compute.
  unfold unscanned_agent. simpl. set_solver.
Qed.

(** What the single scan does reach: just after the scan has visited a
    sentence, [known_mines()] and [known_safes()] of that sentence are
    empty; and when [add_knowledge] returns, they are empty for the sentence
    that the call added (the last one visited). *)
Lemma scan_settles_visited (a : MinesweeperAI.t) :
  (∀ i s, MinesweeperAI.knowledge a !! i = Some s →
     ∃ a' s', MinesweeperAI.infer i a = Ok (tt, a') ∧
              MinesweeperAI.knowledge a' !! i = Some s' ∧
              Sentence.known_mines s' = Ok (∅, s') ∧
              Sentence.known_safes s' = Ok (∅, s')) ∧
  (∀ fuel cell count a',
     MinesweeperAI.add_knowledge fuel cell count a = Ok (tt, a') →
     ∃ s', MinesweeperAI.knowledge a' !! length (MinesweeperAI.knowledge a) = Some s' ∧
           Sentence.known_mines s' = Ok (∅, s') ∧
           Sentence.known_safes s' = Ok (∅, s')).
Proof.
  split.
  - intros i s Hs. destruct (infer_effect_settles i a s Hs) as (s' & Hs' & Hset).
    exists (infer_effect s a), s'. split_and!; [by apply infer_run|done|..];
      by apply settled_known.
  - intros fuel cell count a'. rewrite add_knowledge_run.
    case_decide; [|done].
    destruct (chase _ _ _ _) as [K'|] eqn:HK; [|done]. intros [= <-].
    apply chase_prefix in HK as [A ->]. exists (new_sentence a cell count).
    split; [|apply settled_known, new_sentence_settled].
    simpl. apply lookup_app_l_Some, new_sentence_lookup.
Qed.

Lemma scan_settles_visited_example :
  (∃ a' s', MinesweeperAI.infer 0 corner_agent = Ok (tt, a') ∧
            MinesweeperAI.knowledge a' !! 0%nat = Some s' ∧
            Sentence.known_mines s' = Ok (∅, s') ∧
            Sentence.known_safes s' = Ok (∅, s')) ∧
  (∃ s', MinesweeperAI.knowledge corner_agent
           !! length (MinesweeperAI.knowledge (MinesweeperAI.init 3 3)) = Some s' ∧
         Sentence.known_mines s' = Ok (∅, s') ∧
         Sentence.known_safes s' = Ok (∅, s')).
Proof.
  split.
  - refine (proj1 (scan_settles_visited corner_agent) 0%nat (Sentence.mk ∅ 0) _).
    reflexivity.
  - refine (proj2 (scan_settles_visited (MinesweeperAI.init 3 3))
              1%nat (2, 2) 0 corner_agent _).
    by vm_compute.
Defined.

(** ** The subsumption step *)

Lemma chase_spec fuel i n K K' :
  chase fuel i n K = Some K' →
  ∃ A, K' = K ++ A ∧
    (∀ p c, A !! p = Some c →
       ∃ j S, (i ≤ j < length K + p)%nat ∧ K' !! j = Some S ∧ triggers n S ∧
              c = candidate n S ∧ c ∉ take (length K + p) K') ∧
    (∀ j S, (i ≤ j)%nat → K' !! j = Some S → triggers n S → candidate n S ∈ K').
Proof.
  revert i K. induction fuel as [|fuel IH]; intros i K; simpl.
  - destruct (K !! i) eqn:Hi; [done|]. intros [= <-]. exists []. rewrite app_nil_r.
    split_and!; [done|by intros ? ? ?|].
    intros j S Hj HS. apply lookup_ge_None in Hi. apply lookup_lt_Some in HS. lia.
  - destruct (K !! i) as [s|] eqn:Hi.
    2: { intros [= <-]. exists []. rewrite app_nil_r.
         split_and!; [done|by intros ? ? ?|].
         intros j S Hj HS. apply lookup_ge_None in Hi. apply lookup_lt_Some in HS. lia. }
    intros H. apply IH in H as (A1 & -> & Hb & Hc).
    assert (Hlt : (i < length K)%nat) by (by eapply lookup_lt_Some).
    unfold subsume_effect in *.
    destruct (decide (triggers n s ∧ candidate n s ∉ K)) as [[Ht Hfresh]|Hno].
    + exists (candidate n s :: A1). split; [by rewrite <- app_assoc|].
      assert (Hi' : ((K ++ [candidate n s]) ++ A1) !! i = Some s).
      { rewrite <- app_assoc. by apply lookup_app_l_Some. }
      split.
      * intros [|p] c Hp.
        -- injection Hp as <-. exists i, s. split_and!; try done; try lia.
           rewrite Nat.add_0_r, <- app_assoc, take_app_length. done.
        -- destruct (Hb p c Hp) as (j & S & Hj & HS & HtS & -> & Hnot).
           rewrite length_app in Hj, Hnot. simpl in Hj, Hnot.
           exists j, S. split_and!; try done; try lia.
           by replace (length K + Datatypes.S p)%nat with (length K + 1 + p)%nat by lia.
      * intros j S Hj HS HtS. destruct (decide (j = i)) as [->|Hne].
        -- rewrite Hi' in HS. injection HS as <-. set_solver.
        -- apply (Hc j S); [lia|done..].
    + exists A1. split; [done|]. split.
      * intros p c Hp. destruct (Hb p c Hp) as (j & S & Hj & HS & HtS & -> & Hnot).
        exists j, S. split_and!; try done; lia.
      * intros j S Hj HS HtS. destruct (decide (j = i)) as [->|Hne].
        -- rewrite (lookup_app_l_Some _ _ _ _ Hi) in HS. injection HS as <-.
           destruct (decide (candidate n s ∈ K)) as [Hin|Hout]; [set_solver|].
           destruct Hno. by split.
        -- apply (Hc j S); [lia|done..].
Qed.

(** The loop of step 5 on any agent, with [n] the sentence at the position
    [new]: the
    visit of a sentence [s] of [knowledge] appends the candidate
    [(s.cells - n.cells, s.count - n.count)] exactly when
    [n.cells] is a subset of [s.cells], [s.count > 0], [s] is not equal to
    [n] and no sentence of [knowledge] is equal to the candidate, and it
    changes nothing else.  Over the whole loop, which also visits the
    sentences it appends: [knowledge] is extended at its end; every sentence
    appended is the candidate of a sentence at an earlier position that
    meets the three conditions, and is equal to no sentence before it; and
    the candidate of every such sentence is in [knowledge] at the end. *)
Lemma subsume_loop_spec (a : MinesweeperAI.t) (new : nat) (n : Sentence.t) :
  MinesweeperAI.knowledge a !! new = Some n →
  (∀ i s, MinesweeperAI.knowledge a !! i = Some s →
     let c := Sentence.mk (Sentence.cells s ∖ Sentence.cells n)
                (Sentence.count s - Sentence.count n) in
     MinesweeperAI.subsume new i a
     = Ok (tt, MinesweeperAI.set_knowledge
                 (if decide ((Sentence.cells n ⊆ Sentence.cells s ∧ Sentence.count s > 0 ∧ n ≠ s)
                             ∧ c ∉ MinesweeperAI.knowledge a)
                  then MinesweeperAI.knowledge a ++ [c]
                  else MinesweeperAI.knowledge a) a)) ∧
  (∀ fuel a',
     MinesweeperAI.for_knowledge fuel 0 (MinesweeperAI.subsume new) a = Ok (tt, a') →
     ∃ A, a' = MinesweeperAI.set_knowledge (MinesweeperAI.knowledge a ++ A) a ∧
       (∀ p c, A !! p = Some c →
          ∃ j S, (j < length (MinesweeperAI.knowledge a) + p)%nat ∧
                 MinesweeperAI.knowledge a' !! j = Some S ∧
                 triggers n S ∧ c = candidate n S ∧
                 c ∉ take (length (MinesweeperAI.knowledge a) + p) (MinesweeperAI.knowledge a')) ∧
       (∀ S, S ∈ MinesweeperAI.knowledge a' → triggers n S →
             candidate n S ∈ MinesweeperAI.knowledge a')).
Proof.
  intros Hn. split.
  - intros i s Hs c. by rewrite (subsume_run _ _ _ _ _ Hn Hs).
  - intros fuel a'. rewrite (subsume_loop _ _ _ _ _ Hn).
    destruct (chase _ _ _ _) as [K'|] eqn:HK; [|done]. intros [= <-].
    apply chase_spec in HK as (A & -> & Hb & Hc). exists A. split_and!; [done|..].
    + intros p c Hp. destruct (Hb p c Hp) as (j & S & Hj & HS & HtS & -> & Hnot).
      exists j, S. simpl. split_and!; try done; lia.
    + intros S HS HtS. simpl in *. apply list_elem_of_lookup in HS as [j Hj].
      apply (Hc j S); [lia|done..].
Qed.

(** ** Termination of the subsumption loop *)

Section termination.
Variable n : Sentence.t.

Lemma load_lookup i K s :
  K !! i = Some s → load n i K = (visits n s + load n (S i) K)%nat.
Proof.
  intros Hi. unfold load. by rewrite (drop_S _ _ _ Hi).
Qed.

Lemma load_snoc i K c :
  (i ≤ length K)%nat → load n i (K ++ [c]) = (load n i K + visits n c)%nat.
Proof.
  intros Hi. unfold load. rewrite drop_app_le by done.
  rewrite sum_list_with_app. simpl. lia.
Qed.

Lemma visits_pos s : (1 ≤ visits n s)%nat.
Proof. unfold visits. repeat case_decide; lia. Qed.

(** A sentence appended by the loop causes fewer visits than the sentence
    it derives from. *)
Lemma visits_candidate (K : list Sentence.t) s :
  0 ≤ Sentence.count n ∨ Sentence.cells n ≠ ∅ →
  s ∈ K → triggers n s → candidate n s ∉ K →
  (visits n (candidate n s) < visits n s)%nat.
Proof.
  intros Hn Hs (Hsub & Hpos & Hne) Hfresh. unfold visits.
  destruct (decide (Sentence.cells n = ∅)) as [He|He].
  - destruct Hn as [Hn|Hn]; [|done]. simpl.
    assert (Sentence.count n ≠ 0).
    { intros H0. destruct Hfresh.
      replace (candidate n s) with s; [done|].
      apply sentence_eq; simpl; [set_solver|lia]. }
    lia.
  - rewrite (decide_True (P := Sentence.cells n ⊆ Sentence.cells s)) by done.
    rewrite decide_False; [lia|]. simpl.
    apply set_choose_L in He as [x Hx]. set_solver.
Qed.

Lemma chase_returns fuel i K :
  0 ≤ Sentence.count n ∨ Sentence.cells n ≠ ∅ →
  (load n i K ≤ fuel)%nat → is_Some (chase fuel i n K).
Proof.
  intros Hn. revert i K. induction fuel as [|fuel IH]; intros i K Hload.
  - simpl. destruct (K !! i) as [s|] eqn:Hi; [|done].
    rewrite (load_lookup _ _ _ Hi) in Hload. pose proof (visits_pos s). lia.
  - simpl. destruct (K !! i) as [s|] eqn:Hi; [|done].
    rewrite (load_lookup _ _ _ Hi) in Hload. pose proof (visits_pos s).
    apply IH. unfold subsume_effect.
    destruct (decide _) as [[Ht Hfresh]|_]; [|lia].
    rewrite load_snoc by (apply lookup_lt_Some in Hi; lia).
    assert (Hin : s ∈ K) by (by eapply list_elem_of_lookup_2).
    pose proof (visits_candidate K s Hn Hin Ht Hfresh). lia.
Qed.

(** When no sentence has a positive count, the loop appends nothing. *)
Lemma chase_idle fuel i (K : list Sentence.t) :
  (∀ s, s ∈ K → Sentence.count s ≤ 0) →
  (length K ≤ i + fuel)%nat → chase fuel i n K = Some K.
Proof.
  intros HK. revert i. induction fuel as [|fuel IH]; intros i Hlen; simpl.
  - rewrite lookup_ge_None_2; [done|lia].
  - destruct (K !! i) as [s|] eqn:Hi; [|done].
    unfold subsume_effect. rewrite decide_False.
    + apply IH. lia.
    + intros [(_ & Hpos & _) _].
      assert (Hin : s ∈ K) by (by eapply list_elem_of_lookup_2).
      specialize (HK s Hin). lia.
Qed.

(** With an empty new sentence of negative count and a sentence of positive
    count in [knowledge], the loop never ends: the candidate of a sentence
    of positive count has a larger count and would be in [knowledge] too. *)
Lemma chase_diverges fuel (K : list Sentence.t) :
  Sentence.cells n = ∅ → Sentence.count n < 0 →
  (∃ s, s ∈ K ∧ 0 < Sentence.count s) →
  chase fuel 0 n K = None.
Proof.
  intros He Hneg (s0 & Hs0 & Hpos0).
  destruct (chase fuel 0 n K) as [K'|] eqn:HK; [exfalso|done].
  apply chase_spec in HK as (A & -> & _ & Hc).
  assert (Hup : ∀ m : nat, ∃ s, s ∈ K ++ A ∧ 0 < Sentence.count s
                               ∧ Z.of_nat m ≤ Sentence.count s).
  { induction m as [|m (s & Hs & Hpos & Hm)].
    - exists s0. split_and!; [set_solver|done|lia].
    - assert (Ht : triggers n s).
      { split_and!; [set_solver|lia|]. intros ->. lia. }
      apply list_elem_of_lookup in Hs as [j Hj].
      exists (candidate n s). split; [apply (Hc j s); [lia|done..]|].
      simpl. lia. }
  destruct (Hup (S (sum_list_with (λ s, Z.to_nat (Sentence.count s)) (K ++ A))))
    as (s & Hs & Hpos & Hm).
  pose proof (sum_list_with_in s (λ s, Z.to_nat (Sentence.count s)) _ Hs). simpl in *.
  lia.
Qed.

End termination.

(** ** Termination of [add_knowledge] *)

Lemma steps_1_to_4_run (a : MinesweeperAI.t) (cell : Cell) (count : Z) (fuel : nat) :
  (length (MinesweeperAI.knowledge a) < fuel)%nat →
  (let! _ := MinesweeperAI.observe cell count in
   MinesweeperAI.for_knowledge fuel 0 MinesweeperAI.infer) a
  = Ok (tt, scanned a cell count).
Proof.
  intros Hf. unfold bind. rewrite observe_run.
  apply scan_run; [by rewrite observed_length|lia].
Qed.

Lemma subsumption_ends_dec (n : Sentence.t) (K : list Sentence.t) :
  subsumption_ends n K ∨
  (Sentence.cells n = ∅ ∧ Sentence.count n < 0 ∧ ∃ s, s ∈ K ∧ 0 < Sentence.count s).
Proof.
  unfold subsumption_ends.
  destruct (decide (Sentence.cells n = ∅)) as [He|He]; [|by left; left].
  destruct (decide (0 ≤ Sentence.count n)) as [Hn|Hn]; [by left; right; left|].
  destruct (decide (Forall (λ s, Sentence.count s ≤ 0) K)) as [HK|HK].
  - left. right. right. by apply Forall_forall.
  - right. split_and!; [done|lia|].
    apply not_Forall_Exists in HK; [|apply _].
    apply Exists_exists in HK as (s & Hs & Hpos). exists s. split; [done|].
    simpl in Hpos. lia.
Qed.

(** The statement of C10 fails: on [looping_agent], where (0, 1), (1, 0)
    and (1, 1) are known mines, the call [add_knowledge((0, 0), 2)] builds
    the new sentence [{} = -1]; from [{(6,6),(6,7),(7,6)} = 1] the loop of
    step 5 then derives the same cells with count 2, from that one count 3,
    and so on: no amount of fuel suffices. *)
Lemma subsumption_never_ends :
  for_each [AddKnowledge (7, 7) 1; AddKnowledge (0, 0) 3] (perform 3)
    (MinesweeperAI.init 8 8) = Ok (tt, looping_agent) ∧
  new_sentence looping_agent (0, 0) 2 = Sentence.mk ∅ (-1) ∧
  ∀ fuel, MinesweeperAI.add_knowledge fuel (0, 0) 2 looping_agent = OutOfFuel.
Proof.
  assert (Hn : new_sentence looping_agent (0, 0) 2 = Sentence.mk ∅ (-1))
    by (by vm_compute).
  split_and!; [by vm_compute|done|].
  intros fuel. rewrite add_knowledge_run. case_decide; [|done].
  rewrite chase_diverges; [done|by rewrite Hn..|].
  exists (Sentence.mk {[(6, 6); (6, 7); (7, 6)]} 1). split; [|simpl; lia].
  assert (HK : MinesweeperAI.knowledge (scanned looping_agent (0, 0) 2)
               = [Sentence.mk {[(6, 6); (6, 7); (7, 6)]} 1; Sentence.mk ∅ 0;
                  Sentence.mk ∅ (-1)]) by (by vm_compute).
  rewrite HK. set_solver.
Qed.

Lemma add_knowledge_ends (a : MinesweeperAI.t) (cell : Cell) (count : Z) :
  (∃ fuel a', MinesweeperAI.add_knowledge fuel cell count a = Ok (tt, a'))
  ↔ subsumption_ends (new_sentence a cell count)
      (MinesweeperAI.knowledge (scanned a cell count)).
Proof.
  split.
  - intros (fuel & a' & Hrun). rewrite add_knowledge_run in Hrun.
    case_decide; [|done].
    destruct (subsumption_ends_dec (new_sentence a cell count)
                (MinesweeperAI.knowledge (scanned a cell count)))
      as [Hends|(He & Hneg & Hpos)]; [done|].
    by rewrite (chase_diverges _ fuel _ He Hneg Hpos) in Hrun.
  - intros Hends.
    set (n := new_sentence a cell count) in *.
    set (K := MinesweeperAI.knowledge (scanned a cell count)) in *.
    assert (Hfuel : ∃ fuel, (length (MinesweeperAI.knowledge a) < fuel)%nat ∧
                            is_Some (chase fuel 0 n K)).
    { destruct Hends as [Hc|[Hc|Hc]].
      - exists (load n 0 K + S (length (MinesweeperAI.knowledge a)))%nat.
        split; [lia|]. apply chase_returns; [by right|lia].
      - exists (load n 0 K + S (length (MinesweeperAI.knowledge a)))%nat.
        split; [lia|]. apply chase_returns; [by left|lia].
      - exists (length K). split.
        + unfold K. rewrite scanned_length. lia.
        + rewrite chase_idle; [done..|lia]. }
    destruct Hfuel as (fuel & Hlt & [K' HK']).
    exists fuel. eexists. rewrite add_knowledge_run, decide_True by done.
    fold n K. by rewrite HK'.
Qed.

(** ** Soundness of the inference with respect to a board *)

Section soundness.
Import MinesweeperAI.
Variable B : gset Cell.

Lemma len_split (X Y : gset Cell) : len X = len (X ∖ Y) + len (X ∩ Y).
Proof.
  rewrite <- len_union_disjoint by set_solver. f_equal.
  apply set_eq. intros x. destruct (decide (x ∈ Y)); set_solver.
Qed.

Lemma true_of_bounds s : true_of B s → well_counted s.
Proof.
  unfold true_of, well_counted. intros <-. split; [apply len_nonneg|].
  unfold len. apply inj_le, subseteq_size. set_solver.
Qed.

Lemma strike_mines_true X s : X ⊆ B → true_of B s → true_of B (strike_mines X s).
Proof.
  unfold true_of. simpl. intros HX <-.
  rewrite (len_split (Sentence.cells s ∩ B) X).
  assert (E1 : Sentence.cells s ∩ B ∩ X = Sentence.cells s ∩ X) by set_solver.
  assert (E2 : (Sentence.cells s ∩ B) ∖ X = Sentence.cells s ∖ X ∩ B) by set_solver.
  rewrite E1, E2. lia.
Qed.

Lemma strike_safes_true X s : X ## B → true_of B s → true_of B (strike_safes X s).
Proof.
  unfold true_of. simpl. intros HX <-. f_equal. set_solver.
Qed.

Lemma sure_mines_true s : true_of B s → sure_mines s ⊆ B.
Proof.
  unfold true_of, sure_mines. intros Hs. case_decide as Hc; [|set_solver].
  destruct Hc as [Hc _]. rewrite <- Hs in Hc. unfold len in Hc.
  assert (Heq : Sentence.cells s ∩ B = Sentence.cells s).
  { apply set_subseteq_size_eq; [set_solver|lia]. }
  set_solver.
Qed.

Lemma sure_safes_true s : true_of B s → sure_safes s ## B.
Proof.
  unfold true_of, sure_safes. intros Hs. case_decide as Hc; [|set_solver].
  rewrite Hc in Hs. apply len_zero in Hs. set_solver.
Qed.

Lemma candidate_true n s :
  Sentence.cells n ⊆ Sentence.cells s → true_of B n → true_of B s →
  true_of B (candidate n s).
Proof.
  unfold true_of. simpl. intros Hsub <- <-.
  rewrite (len_split (Sentence.cells s ∩ B) (Sentence.cells n)).
  assert (E1 : Sentence.cells s ∩ B ∩ Sentence.cells n = Sentence.cells n ∩ B)
    by set_solver.
  assert (E2 : (Sentence.cells s ∩ B) ∖ Sentence.cells n
               = Sentence.cells s ∖ Sentence.cells n ∩ B) by set_solver.
  rewrite E1, E2. lia.
Qed.

Lemma flag_mines_sound X a : X ⊆ B → sound B a → sound B (flag_mines X a).
Proof.
  intros HX (Hm & Hs & HK). split_and!; simpl; [set_solver|done|].
  intros s Hin. apply list_elem_of_fmap in Hin as (s0 & -> & Hs0).
  apply strike_mines_true; auto.
Qed.

Lemma flag_safes_sound X a : X ## B → sound B a → sound B (flag_safes X a).
Proof.
  intros HX (Hm & Hs & HK). split_and!; simpl; [done|set_solver|].
  intros s Hin. apply list_elem_of_fmap in Hin as (s0 & -> & Hs0).
  apply strike_safes_true; auto.
Qed.

Lemma infer_effect_sound s a :
  s ∈ knowledge a → sound B a → sound B (infer_effect s a).
Proof.
  intros Hin Ha. pose proof (proj2 (proj2 Ha) s Hin) as Hs.
  unfold infer_effect. repeat case_decide; [..|done].
  - apply flag_mines_sound; [by apply sure_mines_true|done].
  - apply flag_safes_sound; [by apply sure_safes_true|done].
Qed.

Lemma scan_sound n i a : sound B a → sound B (scan n i a).
Proof.
  revert i a. induction n as [|n IH]; intros i a Ha; simpl; [done|].
  destruct (knowledge a !! i) as [s|] eqn:Hi; [|done].
  apply IH, infer_effect_sound; [|done]. by eapply list_elem_of_lookup_2.
Qed.

Lemma subsume_effect_true n s K :
  true_of B n → s ∈ K → (∀ x, x ∈ K → true_of B x) →
  ∀ x, x ∈ subsume_effect n s K → true_of B x.
Proof.
  intros Hn Hs HK x. unfold subsume_effect.
  destruct (decide _) as [[(Hsub & _) _]|_]; [|apply HK].
  rewrite elem_of_app, list_elem_of_singleton. intros [Hx| ->]; [by apply HK|].
  apply candidate_true; auto.
Qed.

Lemma chase_true fuel i n K K' :
  true_of B n → (∀ x, x ∈ K → true_of B x) →
  chase fuel i n K = Some K' → ∀ x, x ∈ K' → true_of B x.
Proof.
  intros Hn. revert i K. induction fuel as [|fuel IH]; intros i K HK; simpl.
  - destruct (K !! i); [done|]. by intros [= <-].
  - destruct (K !! i) as [s|] eqn:Hi; [|by intros [= <-]].
    apply IH. apply subsume_effect_true; [done| |done].
    by eapply list_elem_of_lookup_2.
Qed.

(** Steps 1 to 3, for a revealed cell that is not a mine and the number of
    mines among its neighbours. *)
Lemma observed_sound a cell count :
  (∀ u, u ∈ B → in_bounds a u) →
  cell ∉ B → count = len (neighbours cell ∩ B) →
  sound B a → sound B (observed a cell count).
Proof.
  intros HB Hcell -> (Hm & Hs & HK). split_and!; simpl; [done|set_solver|].
  intros s. rewrite elem_of_app, list_elem_of_singleton. intros [Hin| ->].
  - apply list_elem_of_fmap in Hin as (s0 & -> & Hs0).
    apply strike_safes_true; [set_solver|auto].
  - unfold true_of, fresh_cells, fresh_count. simpl.
    generalize (neighbours cell). intros N.
    rewrite (len_split (N ∩ B) (mines a)).
    assert (E1 : N ∩ B ∩ mines a = N ∩ mines a ∖ safes a) by set_solver.
    assert (E2 : (N ∩ B) ∖ mines a = filter (in_bounds a) N ∖ safes a ∖ mines a ∩ B).
    { apply set_eq. intros u. specialize (HB u). set_solver. }
    rewrite E1, E2. lia.
Qed.


Lemma sound_well_counted a s : sound B a → s ∈ knowledge a → well_counted s.
Proof. intros (_ & _ & HK) Hs. by apply true_of_bounds, HK. Qed.

(** A truthful report always ends, and leaves the agent sound. *)
Lemma add_knowledge_sound a cell count :
  (∀ u, u ∈ B → in_bounds a u) →
  cell ∉ B → count = len (neighbours cell ∩ B) →
  sound B a →
  (∃ fuel a', add_knowledge fuel cell count a = Ok (tt, a')) ∧
  (∀ fuel a', add_knowledge fuel cell count a = Ok (tt, a') → sound B a').
Proof.
  intros HB Hcell Hcount Ha.
  assert (Hsc : sound B (scanned a cell count)).
  { unfold scanned. by apply scan_sound, observed_sound. }
  assert (Hn : true_of B (new_sentence a cell count)).
  { apply Hsc. eapply list_elem_of_lookup_2, new_sentence_lookup. }
  split.
  - apply add_knowledge_ends. right. left.
    apply true_of_bounds in Hn. apply Hn.
  - intros fuel a'. rewrite add_knowledge_run. case_decide; [|done].
    destruct (chase _ _ _ _) as [K'|] eqn:HK'; [|done]. intros [= <-].
    destruct Hsc as (Hm & Hs & HK). split_and!; [done..|].
    simpl. by eapply chase_true.
Qed.

End soundness.

(** ** Growth of the agent's sets *)

Section growth.
Import MinesweeperAI.

Lemma extends_refl a : extends a a.
Proof. by unfold extends. Qed.

Lemma extends_trans a b c : extends a b → extends b c → extends a c.
Proof. unfold extends. intros (?&?&?&?&?) (?&?&?&?&?). split_and!; try set_solver; congruence. Qed.

Lemma infer_effect_extends s a : extends a (infer_effect s a).
Proof.
  unfold infer_effect, extends. repeat case_decide; simpl; split_and!; set_solver.
Qed.

Lemma scan_extends n i a : extends a (scan n i a).
Proof.
  revert i a. induction n as [|n IH]; intros i a; simpl; [apply extends_refl|].
  destruct (knowledge a !! i); [|apply extends_refl].
  eapply extends_trans; [apply infer_effect_extends|apply IH].
Qed.

Lemma observed_extends a cell count : extends a (observed a cell count).
Proof. unfold extends. simpl. split_and!; set_solver. Qed.

Lemma perform_extends fuel c a a' : perform fuel c a = Ok (tt, a') → extends a a'.
Proof.
  destruct c as [cell count|cell|cell]; simpl.
  - rewrite add_knowledge_run. case_decide; [|done].
    destruct (chase _ _ _ _); [|done]. intros [= <-].
    apply (extends_trans _ (observed a cell count)); [apply observed_extends|].
    apply (extends_trans _ (scanned a cell count)); [apply scan_extends|].
    unfold extends. simpl. by split_and!.
  - rewrite ai_mark_mine_run. intros [= <-]. unfold extends. simpl. split_and!; set_solver.
  - rewrite ai_mark_safe_run. intros [= <-]. unfold extends. simpl. split_and!; set_solver.
Qed.


End growth.

(** ** Truthful reports keep the agent sound *)

Section truthful.
Import MinesweeperAI.

Lemma tally_fold g cell (l : list Cell) (n : Z) :
  foldl (Minesweeper.tally g cell) n l =
    n + Z.of_nat (length (filter (λ u, u ≠ cell ∧ u ∈ layout g) l)).
Proof.
  revert n. induction l as [|u l IH]; intros n; cbn [foldl].
  - rewrite filter_nil. simpl. lia.
  - rewrite IH. unfold Minesweeper.tally, Minesweeper.is_mine, layout.
    destruct (decide (u = cell)) as [->|Hne].
    { rewrite bool_decide_eq_true_2 by done. by rewrite filter_cons_False by tauto. }
    rewrite (bool_decide_eq_false_2 (u = cell)) by done.
    destruct (decide ((0 ≤ u.1 < Minesweeper.height g) ∧ (0 ≤ u.2 < Minesweeper.width g)
                      ∧ u ∈ Minesweeper.mines g)) as [(H1 & H2 & H3)|Hno].
    + rewrite !bool_decide_eq_true_2 by done. simpl.
      rewrite filter_cons_True; [simpl; lia|]. split; [done|].
      apply elem_of_filter. by split.
    + rewrite filter_cons_False.
      2: { rewrite elem_of_filter. tauto. }
      destruct (bool_decide (0 ≤ u.1 < Minesweeper.height g)) eqn:E1;
        destruct (bool_decide (0 ≤ u.2 < Minesweeper.width g)) eqn:E2;
        destruct (bool_decide (u ∈ Minesweeper.mines g)) eqn:E3; simpl; try done.
      apply bool_decide_eq_true in E1, E2, E3. tauto.
Qed.

(** [nearby_mines] counts the mined neighbours. *)
Lemma nearby_mines_count g cell :
  Minesweeper.nearby_mines cell g = len (neighbours cell ∩ layout g).
Proof.
  unfold Minesweeper.nearby_mines. rewrite tally_fold.
  rewrite length_filter_len by apply block_NoDup. rewrite Z.add_0_l. f_equal.
  unfold neighbours. generalize (block cell). intros l.
  apply set_eq. intros u. rewrite elem_of_list_to_set, list_elem_of_filter. set_solver.
Qed.

Lemma revealable_not_mined g cell : revealable g cell → cell ∉ layout g.
Proof.
  intros (_ & _ & Hm). unfold Minesweeper.is_mine in Hm.
  apply bool_decide_eq_false in Hm. unfold layout. rewrite elem_of_filter. tauto.
Qed.

Lemma layout_in_bounds g a :
  height a = Minesweeper.height g → width a = Minesweeper.width g →
  ∀ u, u ∈ layout g → in_bounds a u.
Proof.
  intros Hh Hw u. unfold layout, in_bounds. rewrite elem_of_filter, Hh, Hw. tauto.
Qed.

Lemma told_sound g a :
  told g a →
  sound (layout g) a ∧ height a = Minesweeper.height g ∧ width a = Minesweeper.width g.
Proof.
  induction 1 as [|a fuel cell a' _ (IH & Hh & Hw) Hcell Hrun].
  - split_and!; [|done..]. split_and!; simpl; set_solver.
  - pose proof (perform_extends fuel (AddKnowledge cell _) a a' Hrun)
      as (_ & _ & _ & Hh' & Hw').
    split_and!; [|congruence..].
    eapply (add_knowledge_sound (layout g) a cell); [..|exact Hrun]; try done.
    + by apply layout_in_bounds.
    + by apply revealable_not_mined.
    + apply nearby_mines_count.
Qed.

Lemma told_answer_returns g a cell :
  told g a → revealable g cell →
  ∃ fuel a', add_knowledge fuel cell (Minesweeper.nearby_mines cell g) a = Ok (tt, a').
Proof.
  intros Ha Hcell. destruct (told_sound g a Ha) as (Hs & Hh & Hw).
  eapply (add_knowledge_sound (layout g) a cell); try done.
  - by apply layout_in_bounds.
  - by apply revealable_not_mined.
  - apply nearby_mines_count.
Qed.

End truthful.

(** ** Termination of [add_knowledge], stated *)

(** C10, amended. Steps 1 to 4 of [add_knowledge] always end.  The whole
    call ends if and only if, when the scan of step 4 is over, the new
    sentence has a cell, or its count is not negative, or no sentence of
    [knowledge] has a positive count.  In the remaining case (an empty new
    sentence of negative count, and a sentence of positive count) each
    derived sentence is visited and yields a further one, and the loop of
    step 5 does not end.  A call that reports what a board answers for a
    cell that can be revealed, on an agent that was only ever told such
    answers of that board, always ends. *)
Theorem add_knowledge_terminates_iff (a : MinesweeperAI.t) (cell : Cell) (count : Z) :
  (let! _ := MinesweeperAI.observe cell count in
   MinesweeperAI.for_knowledge (S (length (MinesweeperAI.knowledge a))) 0 MinesweeperAI.infer) a
  = Ok (tt, scanned a cell count) ∧
  MinesweeperAI.knowledge (scanned a cell count) !! length (MinesweeperAI.knowledge a)
  = Some (new_sentence a cell count) ∧
  ((∃ fuel a', MinesweeperAI.add_knowledge fuel cell count a = Ok (tt, a'))
   ↔ subsumption_ends (new_sentence a cell count)
       (MinesweeperAI.knowledge (scanned a cell count))) ∧
  (∀ g, told g a → revealable g cell →
     ∃ fuel a', MinesweeperAI.add_knowledge fuel cell (Minesweeper.nearby_mines cell g) a
                = Ok (tt, a')).
Proof.
  split_and!.
  - apply steps_1_to_4_run. lia.
  - apply new_sentence_lookup.
  - apply add_knowledge_ends.
  - intros g. apply told_answer_returns.
Qed.

Lemma add_knowledge_terminates_iff_witness :
  (∃ fuel a', MinesweeperAI.add_knowledge fuel (2, 2) 0 (MinesweeperAI.init 3 3) = Ok (tt, a')) ∧
  (∃ fuel a', MinesweeperAI.add_knowledge fuel (2, 2)
                (Minesweeper.nearby_mines (2, 2) corner_board) (MinesweeperAI.init 3 3)
              = Ok (tt, a')).
Proof.
  split.
  - refine (proj2 (proj1 (proj2 (proj2
              (add_knowledge_terminates_iff (MinesweeperAI.init 3 3) (2, 2) 0)))) _).
    right. left. by vm_compute.
  - refine (proj2 (proj2 (proj2
              (add_knowledge_terminates_iff (MinesweeperAI.init 3 3) (2, 2) 0)))
              corner_board _ _).
    + apply (told_fresh corner_board).
    + unfold revealable. simpl. split_and!; [lia..|by vm_compute].
Defined.

(** ** The sets of the agent over a sequence of calls *)






(** ** The subsumption step of a call *)

(** C3. In a call [add_knowledge(cell, count)] that returns, step 5 starts
    on the agent that steps 1 to 4 leave, where [new_sentence] is the
    sentence at the position at which the call appended it, with the value
    [n] that the scan gave it.  The visit of a sentence [s] of [knowledge]
    forms the candidate [(s.cells - n.cells, s.count - n.count)] and appends
    it exactly when [n.cells] is a subset of [s.cells], [s.count > 0], [s]
    is not equal to [n] and no sentence of [knowledge] is equal to the
    candidate; it changes nothing else.  The agent that the call returns is
    the one left by step 4 with [knowledge] extended at its end: every
    sentence appended is the candidate of a sentence at an earlier position
    that meets the three conditions and is equal to no sentence before it,
    and the candidate of every sentence that meets them is in [knowledge]. *)
Theorem add_knowledge_subsumption (fuel : nat) (cell : Cell) (count : Z)
    (a a' : MinesweeperAI.t) :
  MinesweeperAI.add_knowledge fuel cell count a = Ok (tt, a') →
  let new := length (MinesweeperAI.knowledge a) in
  let a4 := scanned a cell count in
  let n := new_sentence a cell count in
  (let! _ := MinesweeperAI.observe cell count in
   MinesweeperAI.for_knowledge fuel 0 MinesweeperAI.infer) a = Ok (tt, a4) ∧
  MinesweeperAI.knowledge a4 !! new = Some n ∧
  MinesweeperAI.for_knowledge fuel 0 (MinesweeperAI.subsume new) a4 = Ok (tt, a') ∧
  (∀ b i s,
     MinesweeperAI.knowledge b !! new = Some n →
     MinesweeperAI.knowledge b !! i = Some s →
     let c := Sentence.mk (Sentence.cells s ∖ Sentence.cells n)
                (Sentence.count s - Sentence.count n) in
     MinesweeperAI.subsume new i b
     = Ok (tt, MinesweeperAI.set_knowledge
                 (if decide ((Sentence.cells n ⊆ Sentence.cells s ∧ Sentence.count s > 0 ∧ n ≠ s)
                             ∧ c ∉ MinesweeperAI.knowledge b)
                  then MinesweeperAI.knowledge b ++ [c]
                  else MinesweeperAI.knowledge b) b)) ∧
  ∃ A, a' = MinesweeperAI.set_knowledge (MinesweeperAI.knowledge a4 ++ A) a4 ∧
    (∀ p c, A !! p = Some c →
       ∃ j S, (j < length (MinesweeperAI.knowledge a4) + p)%nat ∧
              MinesweeperAI.knowledge a' !! j = Some S ∧
              triggers n S ∧ c = candidate n S ∧
              c ∉ take (length (MinesweeperAI.knowledge a4) + p) (MinesweeperAI.knowledge a')) ∧
    (∀ S, S ∈ MinesweeperAI.knowledge a' → triggers n S →
          candidate n S ∈ MinesweeperAI.knowledge a').
Proof.
  intros Hrun new a4 n.
  assert (Hfuel : (length (MinesweeperAI.knowledge a) < fuel)%nat).
  { rewrite add_knowledge_run in Hrun. by case_decide. }
  assert (H14 : (let! _ := MinesweeperAI.observe cell count in
                 MinesweeperAI.for_knowledge fuel 0 MinesweeperAI.infer) a = Ok (tt, a4))
    by (by apply steps_1_to_4_run).
  assert (Hn : MinesweeperAI.knowledge a4 !! new = Some n) by apply new_sentence_lookup.
  assert (H5 : MinesweeperAI.for_knowledge fuel 0 (MinesweeperAI.subsume new) a4
               = Ok (tt, a')).
  { unfold MinesweeperAI.add_knowledge, bind in Hrun. rewrite observe_run in Hrun.
    unfold bind in H14. rewrite observe_run in H14. by rewrite H14 in Hrun. }
  split_and!; [done..| |].
  - intros b i s Hb Hs c. by rewrite (subsume_run _ _ _ _ _ Hb Hs).
  - exact (proj2 (subsume_loop_spec a4 new n Hn) fuel a' H5).
Qed.

Lemma add_knowledge_subsumption_witness :
  MinesweeperAI.knowledge (scanned center_agent (0, 0) 1) !! 1%nat
  = Some (new_sentence center_agent (0, 0) 1) ∧
  ∃ A, unscanned_agent
       = MinesweeperAI.set_knowledge
           (MinesweeperAI.knowledge (scanned center_agent (0, 0) 1) ++ A)
           (scanned center_agent (0, 0) 1) ∧
       (∀ S, S ∈ MinesweeperAI.knowledge unscanned_agent →
             triggers (new_sentence center_agent (0, 0) 1) S →
             candidate (new_sentence center_agent (0, 0) 1) S
               ∈ MinesweeperAI.knowledge unscanned_agent).
Proof.
  destruct (add_knowledge_subsumption 3 (0, 0) 1 center_agent unscanned_agent)
    as (_ & Hn & _ & _ & A & HA & _ & Hall).
  - by vm_compute.
  - split; [exact Hn|]. exists A. split; assumption.
Defined.

(** * Further properties of the code *)

(** ** Sentences *)

(** X1. [known_safes()] returns the whole cell set when [count == 0] and
    the empty set otherwise, without changing the sentence; and
    [known_mines()] and [known_safes()] are never both non-empty: a sentence
    never reports cells as mines and as safe at once. *)
Theorem known_sets_exclusive (s : Sentence.t) :
  ∃ X Y : gset Cell,
    Sentence.known_mines s = Ok (X, s) ∧
    Sentence.known_safes s = Ok (Y, s) ∧
    Y = (if decide (Sentence.count s = 0) then Sentence.cells s else ∅) ∧
    (X = ∅ ∨ Y = ∅).
Proof.
  exists (sure_mines s), (sure_safes s).
  split_and!; [apply known_mines_run|apply known_safes_run|done|].
  unfold sure_mines, sure_safes.
  destruct (decide (len _ = _ ∧ _)) as [[_ Hne]|_]; [|by left].
  right. by rewrite decide_False.
Qed.

Lemma strike_mines_twice (c : Cell) (s : Sentence.t) :
  strike_mines {[c]} (strike_mines {[c]} s) = strike_mines {[c]} s.
Proof.
  apply sentence_eq; simpl; [set_solver|].
  assert (E : Sentence.cells s ∖ {[c]} ∩ {[c]} = (∅ : gset Cell)) by set_solver.
  rewrite E, len_empty. lia.
Qed.

Lemma strike_safes_twice (c : Cell) (s : Sentence.t) :
  strike_safes {[c]} (strike_safes {[c]} s) = strike_safes {[c]} s.
Proof. apply sentence_eq; simpl; [set_solver|done]. Qed.

(** X2. [Sentence.mark_mine] and [Sentence.mark_safe] are idempotent: after
    one call the cell is no longer in [cells], and a second call with the
    same cell changes nothing (the count is decremented at most once). *)
Theorem sentence_marks_idempotent (c : Cell) (s : Sentence.t) :
  ∃ s1 s2,
    Sentence.mark_mine c s = Ok (tt, s1) ∧ c ∉ Sentence.cells s1 ∧
    Sentence.mark_mine c s1 = Ok (tt, s1) ∧
    Sentence.mark_safe c s = Ok (tt, s2) ∧ c ∉ Sentence.cells s2 ∧
    Sentence.mark_safe c s2 = Ok (tt, s2).
Proof.
  exists (strike_mines {[c]} s), (strike_safes {[c]} s).
  rewrite !mark_mine_run, !mark_safe_run, strike_mines_twice, strike_safes_twice.
  split_and!; try done; simpl; set_solver.
Qed.

Lemma strike_mines_safes_comm X Y s :
  X ## Y → strike_mines X (strike_safes Y s) = strike_safes Y (strike_mines X s).
Proof.
  intros Hd. apply sentence_eq; simpl; [set_solver|].
  assert (E : Sentence.cells s ∖ Y ∩ X = Sentence.cells s ∩ X) by set_solver.
  by rewrite E.
Qed.

(** X3. Marks on a sentence commute: two [mark_mine] calls, or two
    [mark_safe] calls, give the same sentence in either order, and so do a
    [mark_mine] and a [mark_safe] of different cells. *)
Theorem sentence_marks_commute (c1 c2 : Cell) (s : Sentence.t) :
  (Sentence.mark_mine c1 >> Sentence.mark_mine c2) s
  = (Sentence.mark_mine c2 >> Sentence.mark_mine c1) s ∧
  (Sentence.mark_safe c1 >> Sentence.mark_safe c2) s
  = (Sentence.mark_safe c2 >> Sentence.mark_safe c1) s ∧
  (c1 ≠ c2 →
   (Sentence.mark_mine c1 >> Sentence.mark_safe c2) s
   = (Sentence.mark_safe c2 >> Sentence.mark_mine c1) s).
Proof.
  unfold bind.
  do 2 (rewrite ?mark_mine_run, ?mark_safe_run; cbn beta iota).
  rewrite !strike_mines_union, !strike_safes_union.
  split_and!.
  - by rewrite (comm_L (∪) {[c1]}).
  - by rewrite (comm_L (∪) {[c1]}).
  - intros Hne. by rewrite strike_mines_safes_comm by set_solver.
Qed.

Lemma sentence_marks_commute_witness :
  (Sentence.mark_mine (0, 0) >> Sentence.mark_safe (0, 1)) (Sentence.mk {[(0, 0); (0, 1)]} 1)
  = (Sentence.mark_safe (0, 1) >> Sentence.mark_mine (0, 0)) (Sentence.mk {[(0, 0); (0, 1)]} 1).
Proof.
  refine (proj2 (proj2 (sentence_marks_commute (0, 0) (0, 1)
            (Sentence.mk {[(0, 0); (0, 1)]} 1))) _).
  intros [=].
Defined.

(** X4. What a true sentence reports is true: if exactly [count] of the
    cells of a sentence are mined on a layout [B], every cell returned by
    [known_mines()] is mined and no cell returned by [known_safes()] is. *)
Theorem known_sets_true (B : gset Cell) (s : Sentence.t) :
  len (Sentence.cells s ∩ B) = Sentence.count s →
  ∃ X Y : gset Cell,
    Sentence.known_mines s = Ok (X, s) ∧ X ⊆ B ∧
    Sentence.known_safes s = Ok (Y, s) ∧ Y ## B.
Proof.
  intros Hs. exists (sure_mines s), (sure_safes s).
  split_and!; [apply known_mines_run|by apply sure_mines_true
              |apply known_safes_run|by apply sure_safes_true].
Qed.

Lemma known_sets_true_witness :
  ∃ X Y : gset Cell,
    Sentence.known_mines (Sentence.mk {[(0, 0); (0, 1)]} 2)
      = Ok (X, Sentence.mk {[(0, 0); (0, 1)]} 2) ∧ X ⊆ {[(0, 0); (0, 1); (5, 5)]} ∧
    Sentence.known_safes (Sentence.mk {[(0, 0); (0, 1)]} 2)
      = Ok (Y, Sentence.mk {[(0, 0); (0, 1)]} 2) ∧ Y ## {[(0, 0); (0, 1); (5, 5)]}.
Proof.
  refine (known_sets_true {[(0, 0); (0, 1); (5, 5)]} (Sentence.mk {[(0, 0); (0, 1)]} 2) _).
  by vm_compute.
Defined.

(** ** Marking cells on the agent *)

(** X5. [MinesweeperAI.mark_mine(c)] adds [c] to [mines] and touches no
    other set; it keeps the number of sentences, after it no sentence of
    [knowledge] mentions [c], and a second call changes nothing.  The same
    holds for [mark_safe(c)] and [safes]. *)
Theorem agent_marks (c : Cell) (a : MinesweeperAI.t) :
  (∃ a', MinesweeperAI.mark_mine c a = Ok (tt, a') ∧
         MinesweeperAI.mines a' = {[c]} ∪ MinesweeperAI.mines a ∧
         MinesweeperAI.safes a' = MinesweeperAI.safes a ∧
         MinesweeperAI.moves_made a' = MinesweeperAI.moves_made a ∧
         length (MinesweeperAI.knowledge a') = length (MinesweeperAI.knowledge a) ∧
         (∀ s, s ∈ MinesweeperAI.knowledge a' → c ∉ Sentence.cells s) ∧
         MinesweeperAI.mark_mine c a' = Ok (tt, a')) ∧
  (∃ a', MinesweeperAI.mark_safe c a = Ok (tt, a') ∧
         MinesweeperAI.safes a' = {[c]} ∪ MinesweeperAI.safes a ∧
         MinesweeperAI.mines a' = MinesweeperAI.mines a ∧
         MinesweeperAI.moves_made a' = MinesweeperAI.moves_made a ∧
         length (MinesweeperAI.knowledge a') = length (MinesweeperAI.knowledge a) ∧
         (∀ s, s ∈ MinesweeperAI.knowledge a' → c ∉ Sentence.cells s) ∧
         MinesweeperAI.mark_safe c a' = Ok (tt, a')).
Proof.
  split.
  - exists (flag_mines {[c]} a). rewrite !ai_mark_mine_run, flag_mines_union.
    split_and!; try done.
    + simpl. by rewrite length_fmap.
    + simpl. intros s Hs. apply list_elem_of_fmap in Hs as (s0 & -> & _).
      simpl. set_solver.
    + by rewrite union_idemp_L.
  - exists (flag_safes {[c]} a). rewrite !ai_mark_safe_run, flag_safes_union.
    split_and!; try done.
    + simpl. by rewrite length_fmap.
    + simpl. intros s Hs. apply list_elem_of_fmap in Hs as (s0 & -> & _).
      simpl. set_solver.
    + by rewrite union_idemp_L.
Qed.

(** X6. Marking the cells of a collection one by one, as the scan does with
    [for cell in sentence.known_mines().copy(): self.mark_mine(cell)], gives
    an agent that depends only on the set of cells, not on the order of the
    iteration nor on repetitions: the cells join [mines] (or [safes]) and
    every sentence loses them, its count dropping by the number of its
    cells marked as mines. *)
Theorem marking_order_irrelevant (l l' : list Cell) (a : MinesweeperAI.t) :
  (list_to_set l : gset Cell) = list_to_set l' →
  for_each l MinesweeperAI.mark_mine a = for_each l' MinesweeperAI.mark_mine a ∧
  for_each l MinesweeperAI.mark_safe a = for_each l' MinesweeperAI.mark_safe a ∧
  for_each l MinesweeperAI.mark_mine a
  = Ok (tt, MinesweeperAI.mk (MinesweeperAI.height a) (MinesweeperAI.width a)
              (MinesweeperAI.moves_made a)
              (list_to_set l ∪ MinesweeperAI.mines a) (MinesweeperAI.safes a)
              ((λ s, Sentence.mk (Sentence.cells s ∖ list_to_set l)
                       (Sentence.count s - len (Sentence.cells s ∩ list_to_set l)))
                 <$> MinesweeperAI.knowledge a)).
Proof.
  intros Hl. rewrite !for_each_mark_mine, !for_each_mark_safe, Hl. done.
Qed.

Lemma marking_order_irrelevant_witness :
  for_each [(0, 0); (0, 1)] MinesweeperAI.mark_mine scenario3_agent
  = for_each [(0, 1); (0, 0); (0, 1)] MinesweeperAI.mark_mine scenario3_agent.
Proof.
  refine (proj1 (marking_order_irrelevant [(0, 0); (0, 1)] [(0, 1); (0, 0); (0, 1)]
                   scenario3_agent _)).
  by vm_compute.
Defined.

(** X7. The visit of a sentence by the scan of step 4 returns; afterwards
    every cell that [known_mines()] returned for the sentence is in [mines]
    and every cell that [known_safes()] returned for it is in [safes];
    [mines], [safes] and [moves_made] lose nothing and [knowledge] keeps its
    length. *)
Theorem infer_marks_known (i : nat) (a : MinesweeperAI.t) (s : Sentence.t) :
  MinesweeperAI.knowledge a !! i = Some s →
  ∃ a' X Y,
    MinesweeperAI.infer i a = Ok (tt, a') ∧
    Sentence.known_mines s = Ok (X, s) ∧ X ⊆ MinesweeperAI.mines a' ∧
    Sentence.known_safes s = Ok (Y, s) ∧ Y ⊆ MinesweeperAI.safes a' ∧
    MinesweeperAI.mines a ⊆ MinesweeperAI.mines a' ∧
    MinesweeperAI.safes a ⊆ MinesweeperAI.safes a' ∧
    MinesweeperAI.moves_made a' = MinesweeperAI.moves_made a ∧
    length (MinesweeperAI.knowledge a') = length (MinesweeperAI.knowledge a).
Proof.
  intros Hi. exists (infer_effect s a), (sure_mines s), (sure_safes s).
  split_and!; [by apply infer_run|apply known_mines_run| |apply known_safes_run|..].
  - unfold infer_effect.
    destruct (decide (sure_mines s ≠ ∅)) as [Hm|Hm]; [simpl; set_solver|].
    apply not_nonempty in Hm. rewrite Hm. set_solver.
  - unfold infer_effect.
    destruct (decide (sure_mines s ≠ ∅)) as [Hm|Hm].
    + assert (sure_safes s = ∅) as ->; [|set_solver].
      unfold sure_mines, sure_safes in *.
      destruct (decide (len _ = _ ∧ _)) as [[_ Hne]|_]; [|done].
      by rewrite decide_False.
    + destruct (decide (sure_safes s ≠ ∅)) as [Hs|Hs]; [simpl; set_solver|].
      apply not_nonempty in Hs. rewrite Hs. set_solver.
  - apply infer_effect_extends.
  - apply infer_effect_extends.
  - unfold infer_effect. by repeat case_decide.
  - apply infer_effect_length.
Qed.

Lemma infer_marks_known_witness :
  ∃ a' X Y,
    MinesweeperAI.infer 1 scenario3_result = Ok (tt, a') ∧
    Sentence.known_mines (Sentence.mk {[(0, 0); (0, 1)]} 1)
      = Ok (X, Sentence.mk {[(0, 0); (0, 1)]} 1) ∧ X ⊆ MinesweeperAI.mines a' ∧
    Sentence.known_safes (Sentence.mk {[(0, 0); (0, 1)]} 1)
      = Ok (Y, Sentence.mk {[(0, 0); (0, 1)]} 1) ∧ Y ⊆ MinesweeperAI.safes a' ∧
    MinesweeperAI.mines scenario3_result ⊆ MinesweeperAI.mines a' ∧
    MinesweeperAI.safes scenario3_result ⊆ MinesweeperAI.safes a' ∧
    MinesweeperAI.moves_made a' = MinesweeperAI.moves_made scenario3_result ∧
    length (MinesweeperAI.knowledge a') = length (MinesweeperAI.knowledge scenario3_result).
Proof.
  refine (infer_marks_known 1 scenario3_result (Sentence.mk {[(0, 0); (0, 1)]} 1) _).
  reflexivity.
Defined.

(** ** Knowledge only mentions open cells *)

Section tidy.
Import MinesweeperAI.

Lemma flag_mines_tidy X a : tidy a → tidy (flag_mines X a).
Proof.
  intros Ha s Hs u Hu. simpl in *.
  apply list_elem_of_fmap in Hs as (s0 & -> & Hs0). simpl in Hu.
  apply elem_of_difference in Hu as [Hu HX].
  destruct (Ha s0 Hs0 u Hu) as (Hb & Hm & Hsf). split_and!; [done|set_solver|done].
Qed.

Lemma flag_safes_tidy X a : tidy a → tidy (flag_safes X a).
Proof.
  intros Ha s Hs u Hu. simpl in *.
  apply list_elem_of_fmap in Hs as (s0 & -> & Hs0). simpl in Hu.
  apply elem_of_difference in Hu as [Hu HX].
  destruct (Ha s0 Hs0 u Hu) as (Hb & Hm & Hsf). split_and!; [done|done|set_solver].
Qed.

Lemma infer_effect_tidy s a : tidy a → tidy (infer_effect s a).
Proof.
  intros Ha. unfold infer_effect.
  repeat case_decide; [by apply flag_mines_tidy|by apply flag_safes_tidy|done].
Qed.

Lemma scan_tidy n i a : tidy a → tidy (scan n i a).
Proof.
  revert i a. induction n as [|n IH]; intros i a Ha; simpl; [done|].
  destruct (knowledge a !! i); [|done]. by apply IH, infer_effect_tidy.
Qed.

Lemma observed_tidy a cell count : tidy a → tidy (observed a cell count).
Proof.
  intros Ha s Hs u Hu. simpl in Hs.
  apply elem_of_app in Hs as [Hs|Hs].
  - apply list_elem_of_fmap in Hs as (s0 & -> & Hs0). simpl in Hu.
    apply elem_of_difference in Hu as [Hu HX].
    destruct (Ha s0 Hs0 u Hu) as (Hb & Hm & Hsf). simpl.
    split_and!; [done|done|set_solver].
  - apply list_elem_of_singleton in Hs as ->. simpl in Hu. unfold fresh_cells in Hu.
    rewrite !elem_of_difference, elem_of_filter, elem_of_neighbours in Hu.
    simpl. split_and!; [tauto|tauto|]. rewrite elem_of_union, elem_of_singleton. tauto.
Qed.

Lemma chase_tidy fuel i n K K' (P : Cell → Prop) :
  (∀ s, s ∈ K → ∀ u, u ∈ Sentence.cells s → P u) →
  chase fuel i n K = Some K' →
  ∀ s, s ∈ K' → ∀ u, u ∈ Sentence.cells s → P u.
Proof.
  revert i K. induction fuel as [|fuel IH]; intros i K HK; simpl.
  - destruct (K !! i); [done|]. by intros [= <-].
  - destruct (K !! i) as [s0|] eqn:Hi; [|by intros [= <-]].
    apply IH. intros s Hs u Hu. unfold subsume_effect in Hs.
    destruct (decide _) as [_|_]; [|by eapply HK].
    apply elem_of_app in Hs as [Hs|Hs]; [by eapply HK|].
    apply list_elem_of_singleton in Hs as ->. simpl in Hu.
    apply elem_of_difference in Hu as [Hu _].
    eapply HK; [|done]. by eapply list_elem_of_lookup_2.
Qed.

Lemma perform_tidy fuel c a a' : tidy a → perform fuel c a = Ok (tt, a') → tidy a'.
Proof.
  intros Ha. destruct c as [cell count|cell|cell]; simpl.
  - rewrite add_knowledge_run. case_decide; [|done].
    destruct (chase _ _ _ _) as [K'|] eqn:HK; [|done]. intros [= <-].
    assert (Hsc : tidy (scanned a cell count)).
    { unfold scanned. by apply scan_tidy, observed_tidy. }
    intros s Hs u Hu. simpl in *.
    apply (chase_tidy _ _ _ _ _
             (λ u, in_bounds (scanned a cell count) u
                   ∧ u ∉ mines (scanned a cell count)
                   ∧ u ∉ safes (scanned a cell count)) Hsc HK s Hs u Hu).
  - rewrite ai_mark_mine_run. intros [= <-]. by apply flag_mines_tidy.
  - rewrite ai_mark_safe_run. intros [= <-]. by apply flag_safes_tidy.
Qed.

Lemma reached_tidy h w a :
  reached h w a → tidy a ∧ height a = h ∧ width a = w.
Proof.
  induction 1 as [|a fuel c a' _ (IH & Hh & Hw) Hrun].
  - split_and!; [|done..]. intros s Hs. simpl in Hs. by apply elem_of_nil in Hs.
  - destruct (perform_extends _ _ _ _ Hrun) as (_ & _ & _ & Hh' & Hw').
    split_and!; [by eapply perform_tidy|congruence..].
Qed.

Lemma told_reached g a :
  told g a → reached (Minesweeper.height g) (Minesweeper.width g) a.
Proof.
  induction 1 as [|a fuel cell a' _ IH _ Hrun]; [constructor|].
  by apply (reached_more _ _ a fuel (AddKnowledge cell (Minesweeper.nearby_mines cell g)) a').
Qed.

End tidy.

(** X8. On every agent reached from a fresh one by calls of
    [add_knowledge], [mark_mine] and [mark_safe] that return, the sentences
    of [knowledge] only mention cells that are in bounds and are neither in
    [mines] nor in [safes]; the board size never changes. *)
Theorem knowledge_mentions_open_cells (height width : Z) (a : MinesweeperAI.t) :
  reached height width a →
  MinesweeperAI.height a = height ∧ MinesweeperAI.width a = width ∧
  ∀ s, s ∈ MinesweeperAI.knowledge a →
    ∀ u, u ∈ Sentence.cells s →
      (0 ≤ u.1 < height) ∧ (0 ≤ u.2 < width) ∧
      u ∉ MinesweeperAI.mines a ∧ u ∉ MinesweeperAI.safes a.
Proof.
  intros Ha. destruct (reached_tidy _ _ _ Ha) as (Ht & Hh & Hw).
  split_and!; [done..|]. intros s Hs u Hu.
  destruct (Ht s Hs u Hu) as ([Hb1 Hb2] & Hm & Hsf). rewrite Hh in Hb1. rewrite Hw in Hb2.
  split_and!; try done; lia.
Qed.

Lemma knowledge_mentions_open_cells_witness :
  MinesweeperAI.height unscanned_agent = 8 ∧ MinesweeperAI.width unscanned_agent = 8 ∧
  ∀ s, s ∈ MinesweeperAI.knowledge unscanned_agent →
    ∀ u, u ∈ Sentence.cells s →
      (0 ≤ u.1 < 8) ∧ (0 ≤ u.2 < 8) ∧
      u ∉ MinesweeperAI.mines unscanned_agent ∧ u ∉ MinesweeperAI.safes unscanned_agent.
Proof.
  refine (knowledge_mentions_open_cells 8 8 unscanned_agent _).
  refine (reached_more 8 8 _ 3%nat (AddKnowledge (0, 0) 1) unscanned_agent
            (reached_more 8 8 _ 3%nat (AddKnowledge (1, 1) 1) _ (reached_fresh 8 8) _) _).
  - vm_compute. reflexivity.
  - vm_compute. reflexivity.
Defined.

(** ** What a truthfully told agent knows *)

Section bounded.
Import MinesweeperAI.

(** Every cell of [mines] and [safes] is on the board. *)
Let bounded (a : t) : Prop := ∀ u, u ∈ mines a ∪ safes a → in_bounds a u.

Lemma sure_mines_subseteq s : sure_mines s ⊆ Sentence.cells s.
Proof. unfold sure_mines. case_decide; set_solver. Qed.

Lemma sure_safes_subseteq s : sure_safes s ⊆ Sentence.cells s.
Proof. unfold sure_safes. case_decide; set_solver. Qed.

Lemma infer_effect_bounded s a :
  s ∈ knowledge a → tidy a → bounded a → bounded (infer_effect s a).
Proof.
  intros Hs Ht Hb u. pose proof (sure_mines_subseteq s). pose proof (sure_safes_subseteq s).
  assert (Hin : ∀ v, v ∈ Sentence.cells s → in_bounds a v) by (intros v Hv; by apply (Ht s Hs v)).
  unfold infer_effect. repeat case_decide; simpl; [..|apply Hb].
  - rewrite !elem_of_union. intros [[Hu|Hu]|Hu]; [apply Hin; set_solver|apply Hb; set_solver..].
  - rewrite !elem_of_union. intros [Hu|[Hu|Hu]]; [apply Hb; set_solver|apply Hin; set_solver|apply Hb; set_solver].
Qed.

Lemma scan_bounded n i a : tidy a → bounded a → bounded (scan n i a).
Proof.
  revert i a. induction n as [|n IH]; intros i a Ht Hb; simpl; [done|].
  destruct (knowledge a !! i) as [s|] eqn:Hi; [|done].
  assert (s ∈ knowledge a) by (by eapply list_elem_of_lookup_2).
  apply IH; [by apply infer_effect_tidy|by apply infer_effect_bounded].
Qed.

Lemma add_knowledge_bounded fuel cell count a a' :
  tidy a → bounded a → in_bounds a cell →
  add_knowledge fuel cell count a = Ok (tt, a') → bounded a'.
Proof.
  intros Ht Hb Hc. rewrite add_knowledge_run. case_decide; [|done].
  destruct (chase _ _ _ _) as [K'|]; [|done]. intros [= <-].
  assert (Hsc : bounded (scanned a cell count)).
  { unfold scanned. apply scan_bounded; [by apply observed_tidy|].
    intros u. simpl. rewrite !elem_of_union, elem_of_singleton.
    intros [Hu|[->|Hu]]; [apply Hb; set_solver|done|apply Hb; set_solver]. }
  exact Hsc.
Qed.

Lemma told_bounded g a : told g a → ∀ u, u ∈ mines a ∪ safes a → in_bounds a u.
Proof.
  induction 1 as [|a fuel cell a' Ha IH Hcell Hrun].
  - intros u. simpl. set_solver.
  - destruct (reached_tidy _ _ _ (told_reached g a Ha)) as (Ht & Hh & Hw).
    eapply add_knowledge_bounded; [done..| |exact Hrun].
    destruct Hcell as (H1 & H2 & _). unfold in_bounds. by rewrite Hh, Hw.
Qed.

End bounded.

Lemma make_safe_move_run (rnd : nat) (a : MinesweeperAI.t) :
  ∃ r : option Cell,
    MinesweeperAI.make_safe_move rnd a = Ok (r, a) ∧
    match r with
    | Some c => c ∈ MinesweeperAI.safes a ∖ MinesweeperAI.moves_made a
    | None => MinesweeperAI.safes a ∖ MinesweeperAI.moves_made a = ∅
    end.
Proof.
  unfold MinesweeperAI.make_safe_move, bind, get.
  set (moves := MinesweeperAI.safes a ∖ MinesweeperAI.moves_made a).
  destruct (decide (moves = ∅)) as [He|Hne].
  - rewrite truthy_false by done. by exists None.
  - rewrite truthy_true by done.
    destruct (random_choice_elem rnd (elements moves)) as (x & Hx & Hin).
    { intros Hnil. apply elements_empty_inv in Hnil. by apply leibniz_equiv in Hnil. }
    unfold lift. rewrite Hx. exists (Some x). split; [done|].
    by apply elem_of_elements in Hin.
Qed.

(** X9. Inference from truthful reports is sound.  On an agent that was
    only told what a board answers for cells that can be revealed: every
    cell of [mines] is a mine of the board, no cell of [safes] is, every
    sentence of [knowledge] counts exactly the mines among its cells, and so
    has [0 <= count <= |cells|]. *)
Theorem truthful_knowledge_is_true (g : Minesweeper.t) (a : MinesweeperAI.t) :
  told g a →
  (∀ u, u ∈ MinesweeperAI.mines a → Minesweeper.is_mine u g = true ∧ in_bounds a u) ∧
  (∀ u, u ∈ MinesweeperAI.safes a → Minesweeper.is_mine u g = false ∧ in_bounds a u) ∧
  (∀ s, s ∈ MinesweeperAI.knowledge a →
     Sentence.count s
     = len (filter (λ u, Minesweeper.is_mine u g = true) (Sentence.cells s)) ∧
     0 ≤ Sentence.count s ≤ len (Sentence.cells s)).
Proof.
  intros Ha. destruct (told_sound g a Ha) as ((Hm & Hs & HK) & Hh & Hw).
  pose proof (told_bounded g a Ha) as Hb.
  destruct (reached_tidy _ _ _ (told_reached g a Ha)) as (Ht & _ & _).
  assert (Hlay : ∀ u, in_bounds a u → (u ∈ layout g ↔ Minesweeper.is_mine u g = true)).
  { intros u [H1 H2]. unfold layout, Minesweeper.is_mine.
    rewrite elem_of_filter, bool_decide_eq_true, <- Hh, <- Hw. tauto. }
  split_and!.
  - intros u Hu. assert (in_bounds a u) by (apply Hb; set_solver).
    split; [|done]. apply Hlay; [done|]. by apply Hm.
  - intros u Hu. assert (Hin : in_bounds a u) by (apply Hb; set_solver).
    split; [|done]. apply not_true_is_false. rewrite <- (Hlay u Hin). set_solver.
  - intros s Hin.
    assert (E : filter (λ u, Minesweeper.is_mine u g = true) (Sentence.cells s)
                = Sentence.cells s ∩ layout g).
    { apply set_eq. intros u. rewrite elem_of_filter, elem_of_intersection.
      split; intros [H1 H2].
      - split; [done|]. apply Hlay; [by apply (Ht s Hin u)|done].
      - split; [|done]. apply Hlay; [by apply (Ht s Hin u)|done]. }
    rewrite E. pose proof (HK s Hin) as Hs0. split; [by rewrite Hs0|].
    by apply (true_of_bounds (layout g)).
Qed.

Lemma truthful_knowledge_is_true_witness :
  (∀ u, u ∈ MinesweeperAI.mines corner_agent →
        Minesweeper.is_mine u corner_board = true ∧ in_bounds corner_agent u) ∧
  (∀ u, u ∈ MinesweeperAI.safes corner_agent →
        Minesweeper.is_mine u corner_board = false ∧ in_bounds corner_agent u) ∧
  (∀ s, s ∈ MinesweeperAI.knowledge corner_agent →
     Sentence.count s
     = len (filter (λ u, Minesweeper.is_mine u corner_board = true) (Sentence.cells s)) ∧
     0 ≤ Sentence.count s ≤ len (Sentence.cells s)).
Proof.
  refine (truthful_knowledge_is_true corner_board corner_agent _).
  refine (told_more corner_board (MinesweeperAI.init 3 3) 1%nat (2, 2) corner_agent
            (told_fresh corner_board) _ _).
  - unfold revealable. simpl. split_and!; [lia..|by vm_compute].
  - by vm_compute.
Defined.

(** X10. A safe move is safe.  On an agent that was only told what a board
    answers, a cell returned by [make_safe_move] is on the board, is not a
    mine of the board and was not played before: the driver may reveal it
    and report the board's answer for it, and that call returns. *)
Theorem safe_move_is_not_a_mine (g : Minesweeper.t) (a : MinesweeperAI.t)
    (rnd : nat) (c : Cell) (a1 : MinesweeperAI.t) :
  told g a →
  MinesweeperAI.make_safe_move rnd a = Ok (Some c, a1) →
  a1 = a ∧
  revealable g c ∧
  c ∉ MinesweeperAI.moves_made a ∧
  ∃ fuel a', MinesweeperAI.add_knowledge fuel c (Minesweeper.nearby_mines c g) a
             = Ok (tt, a').
Proof.
  intros Ha Hmove. destruct (make_safe_move_run rnd a) as (r & Hr & Hspec).
  rewrite Hr in Hmove. injection Hmove as -> <-.
  apply elem_of_difference in Hspec as [Hsafe Hnew].
  destruct (told_sound g a Ha) as ((Hm & Hs & HK) & Hh & Hw).
  assert (Hin : in_bounds a c) by (apply (told_bounded g a Ha); set_solver).
  assert (Hrev : revealable g c).
  { destruct Hin as [H1 H2]. rewrite Hh in H1. rewrite Hw in H2.
    split_and!; try lia. unfold Minesweeper.is_mine. apply bool_decide_eq_false.
    intros Hc. apply (Hs c Hsafe). unfold layout. apply elem_of_filter. by split. }
  refine (conj eq_refl (conj Hrev (conj Hnew _))). by apply told_answer_returns.
Qed.

Lemma safe_move_is_not_a_mine_witness :
  corner_agent = corner_agent ∧
  revealable corner_board (1, 2) ∧
  (1, 2) ∉ MinesweeperAI.moves_made corner_agent ∧
  ∃ fuel a', MinesweeperAI.add_knowledge fuel (1, 2)
               (Minesweeper.nearby_mines (1, 2) corner_board) corner_agent
             = Ok (tt, a').
Proof.
  refine (safe_move_is_not_a_mine corner_board corner_agent 0 (1, 2) corner_agent _ _).
  - refine (told_more corner_board (MinesweeperAI.init 3 3) 1%nat (2, 2) corner_agent
              (told_fresh corner_board) _ _).
    + unfold revealable. simpl. split_and!; [lia..|by vm_compute].
    + by vm_compute.
  - by vm_compute.
Defined.

(** ** MinesweeperAI.make_random_move *)

Section random_move.
Import MinesweeperAI.

Lemma collect_fold a (l acc : list Cell) :
  foldl (collect a) acc l
  = acc ++ filter (λ u, u ∉ moves_made a ∧ u ∉ mines a) l.
Proof.
  revert acc. induction l as [|u l IH]; intros acc; cbn [foldl].
  - by rewrite filter_nil, app_nil_r.
  - rewrite IH. unfold collect.
    destruct (decide (u ∉ moves_made a ∧ u ∉ mines a)) as [[H1 H2]|Hno].
    + rewrite !bool_decide_eq_true_2 by done. simpl.
      rewrite filter_cons_True by done. by rewrite <- app_assoc.
    + rewrite filter_cons_False by done.
      destruct (bool_decide (u ∉ moves_made a)) eqn:E1;
        destruct (bool_decide (u ∉ mines a)) eqn:E2; simpl; try done.
      apply bool_decide_eq_true in E1, E2. tauto.
Qed.

Lemma elem_of_grid a (u : Cell) : u ∈ grid a ↔ in_bounds a u.
Proof.
  unfold grid, in_bounds. rewrite list_elem_of_bind. split.
  - intros (r & Hu & Hr). apply list_elem_of_bind in Hu as (c & Hu & Hc).
    apply list_elem_of_singleton in Hu as ->. apply elem_of_seqZ in Hr, Hc. simpl. lia.
  - intros [H1 H2]. exists u.1. split; [|apply elem_of_seqZ; lia].
    apply list_elem_of_bind. exists u.2. split; [|apply elem_of_seqZ; lia].
    destruct u. simpl. by apply list_elem_of_singleton.
Qed.

End random_move.

(** X11. [make_random_move] leaves the agent unchanged and never raises.
    It returns a cell that is in bounds, was not played and is not in
    [mines], whatever the random source, and [None] exactly when the board
    has no such cell (in particular when [height] or [width] is not
    positive). *)
Theorem make_random_move_spec (rnd : nat) (a : MinesweeperAI.t) :
  ∃ r : option Cell,
    MinesweeperAI.make_random_move rnd a = Ok (r, a) ∧
    match r with
    | Some c => in_bounds a c ∧ c ∉ MinesweeperAI.moves_made a ∧ c ∉ MinesweeperAI.mines a
    | None => ∀ c, in_bounds a c → c ∈ MinesweeperAI.moves_made a ∨ c ∈ MinesweeperAI.mines a
    end.
Proof.
  unfold MinesweeperAI.make_random_move, bind, get. rewrite collect_fold, app_nil_l.
  set (moves := filter _ (MinesweeperAI.grid a)).
  destruct moves as [|m moves'] eqn:Hmoves.
  - exists None. split; [done|]. intros c Hc.
    destruct (decide (c ∈ MinesweeperAI.moves_made a)) as [|H1]; [by left|].
    destruct (decide (c ∈ MinesweeperAI.mines a)) as [|H2]; [by right|].
    assert (Hin : c ∈ moves).
    { unfold moves. apply list_elem_of_filter. split; [done|]. by apply elem_of_grid. }
    rewrite Hmoves in Hin. by apply elem_of_nil in Hin.
  - rewrite bool_decide_eq_true_2 by done.
    destruct (random_choice_elem rnd (m :: moves')) as (x & Hx & Hin); [done|].
    unfold lift. rewrite Hx. exists (Some x). split; [done|].
    rewrite <- Hmoves in Hin. unfold moves in Hin.
    apply list_elem_of_filter in Hin as [[H1 H2] Hg]. apply elem_of_grid in Hg. done.
Qed.

(** ** Minesweeper.nearby_mines *)



(** ** What [add_knowledge] changes *)

Section frame.
Import MinesweeperAI.

Lemma elem_of_mentioned a u :
  u ∈ mentioned a ↔ ∃ s, s ∈ knowledge a ∧ u ∈ Sentence.cells s.
Proof.
  unfold mentioned. rewrite elem_of_union_list. split.
  - intros (X & HX & Hu). apply list_elem_of_fmap in HX as (s & -> & Hs). eauto.
  - intros (s & Hs & Hu). exists (Sentence.cells s). split; [|done].
    by apply list_elem_of_fmap_2.
Qed.

Lemma scan_moves_made n i a : moves_made (scan n i a) = moves_made a.
Proof.
  revert i a. induction n as [|n IH]; intros i a; simpl; [done|].
  destruct (knowledge a !! i); [|done]. rewrite IH.
  unfold infer_effect. by repeat case_decide.
Qed.

(** The scan only marks cells that a sentence mentions. *)
Lemma infer_effect_within (U M0 S0 : gset Cell) s a :
  s ∈ knowledge a →
  mentioned a ⊆ U → mines a ⊆ M0 ∪ U → safes a ⊆ S0 ∪ U →
  mentioned (infer_effect s a) ⊆ U ∧
  mines (infer_effect s a) ⊆ M0 ∪ U ∧
  safes (infer_effect s a) ⊆ S0 ∪ U.
Proof.
  intros Hs HU HM HS.
  assert (Hcells : Sentence.cells s ⊆ U).
  { intros u Hu. apply HU, elem_of_mentioned. eauto. }
  pose proof (sure_mines_subseteq s). pose proof (sure_safes_subseteq s).
  assert (Hless : ∀ (f : Sentence.t → Sentence.t) (K : list Sentence.t),
            (∀ x, Sentence.cells (f x) ⊆ Sentence.cells x) →
            ∀ u, (∃ x, x ∈ f <$> K ∧ u ∈ Sentence.cells x) →
                 ∃ x, x ∈ K ∧ u ∈ Sentence.cells x).
  { intros f K Hf u (x & Hx & Hu). apply list_elem_of_fmap in Hx as (x0 & -> & Hx0).
    exists x0. split; [done|]. by apply Hf. }
  unfold infer_effect. repeat case_decide; [..|done].
  - split_and!; simpl; [|set_solver..].
    intros u Hu. apply HU. apply elem_of_mentioned in Hu. apply elem_of_mentioned.
    simpl in Hu.
    apply (Hless (strike_mines (sure_mines s)) (knowledge a)); [|exact Hu].
    intros x. simpl. set_solver.
  - split_and!; simpl; [|set_solver..].
    intros u Hu. apply HU. apply elem_of_mentioned in Hu. apply elem_of_mentioned.
    simpl in Hu.
    apply (Hless (strike_safes (sure_safes s)) (knowledge a)); [|exact Hu].
    intros x. simpl. set_solver.
Qed.

Lemma scan_within (U M0 S0 : gset Cell) n i a :
  mentioned a ⊆ U → mines a ⊆ M0 ∪ U → safes a ⊆ S0 ∪ U →
  mines (scan n i a) ⊆ M0 ∪ U ∧ safes (scan n i a) ⊆ S0 ∪ U.
Proof.
  revert i a. induction n as [|n IH]; intros i a HU HM HS; simpl; [done|].
  destruct (knowledge a !! i) as [s|] eqn:Hi; [|done].
  assert (Hs : s ∈ knowledge a) by (by eapply list_elem_of_lookup_2).
  destruct (infer_effect_within U M0 S0 s a Hs HU HM HS) as (?&?&?). by apply IH.
Qed.

End frame.

(** X13. What a call [add_knowledge(cell, count)] that returns has changed:
    [moves_made] gained [cell] and nothing else; [cell] is in [safes]; the
    board size is the same; [knowledge] is longer; and every cell that
    joined [mines] or [safes], apart from [cell], was mentioned by a
    sentence of [knowledge] or is a neighbour of [cell] on the board. *)
Theorem add_knowledge_frame (fuel : nat) (cell : Cell) (count : Z)
    (a a' : MinesweeperAI.t) :
  MinesweeperAI.add_knowledge fuel cell count a = Ok (tt, a') →
  MinesweeperAI.moves_made a' = {[cell]} ∪ MinesweeperAI.moves_made a ∧
  cell ∈ MinesweeperAI.safes a' ∧
  MinesweeperAI.height a' = MinesweeperAI.height a ∧
  MinesweeperAI.width a' = MinesweeperAI.width a ∧
  (length (MinesweeperAI.knowledge a) < length (MinesweeperAI.knowledge a'))%nat ∧
  MinesweeperAI.mines a'
    ⊆ MinesweeperAI.mines a ∪ (mentioned a ∪ filter (in_bounds a) (neighbours cell)) ∧
  MinesweeperAI.safes a'
    ⊆ ({[cell]} ∪ MinesweeperAI.safes a)
      ∪ (mentioned a ∪ filter (in_bounds a) (neighbours cell)).
Proof.
  intros Hrun.
  destruct (perform_extends fuel (AddKnowledge cell count) a a' Hrun)
    as (_ & _ & _ & Hh & Hw).
  rewrite add_knowledge_run in Hrun. case_decide; [|done].
  destruct (chase _ _ _ _) as [K'|] eqn:HK; [|done]. injection Hrun as <-.
  apply chase_prefix in HK as [A ->].
  destruct (scan_within (mentioned a ∪ filter (in_bounds a) (neighbours cell))
              (MinesweeperAI.mines a) ({[cell]} ∪ MinesweeperAI.safes a)
              (S (length (MinesweeperAI.knowledge a))) 0 (observed a cell count))
    as [Hm Hs].
  { intros u Hu. apply elem_of_mentioned in Hu as (s & Hs & Hu). simpl in Hs.
    apply elem_of_app in Hs as [Hs|Hs].
    - apply list_elem_of_fmap in Hs as (s0 & -> & Hs0). simpl in Hu.
      apply elem_of_union_l, elem_of_mentioned. exists s0. split; [done|set_solver].
    - apply list_elem_of_singleton in Hs as ->. simpl in Hu. unfold fresh_cells in Hu.
      set_solver. }
  { simpl. set_solver. }
  { simpl. set_solver. }
  fold (scanned a cell count) in Hm, Hs.
  split_and!; simpl; try done.
  - unfold scanned. by rewrite scan_moves_made.
  - destruct (scan_extends (S (length (MinesweeperAI.knowledge a))) 0
                (observed a cell count)) as (_ & Hsafe & _).
    apply Hsafe. simpl. set_solver.
  - rewrite length_app, scanned_length. lia.
Qed.

Lemma add_knowledge_frame_witness :
  MinesweeperAI.moves_made corner_agent
    = {[(2, 2)]} ∪ MinesweeperAI.moves_made (MinesweeperAI.init 3 3) ∧
  (2, 2) ∈ MinesweeperAI.safes corner_agent ∧
  MinesweeperAI.height corner_agent = MinesweeperAI.height (MinesweeperAI.init 3 3) ∧
  MinesweeperAI.width corner_agent = MinesweeperAI.width (MinesweeperAI.init 3 3) ∧
  (length (MinesweeperAI.knowledge (MinesweeperAI.init 3 3))
   < length (MinesweeperAI.knowledge corner_agent))%nat ∧
  MinesweeperAI.mines corner_agent
    ⊆ MinesweeperAI.mines (MinesweeperAI.init 3 3)
      ∪ (mentioned (MinesweeperAI.init 3 3)
         ∪ filter (in_bounds (MinesweeperAI.init 3 3)) (neighbours (2, 2))) ∧
  MinesweeperAI.safes corner_agent
    ⊆ ({[(2, 2)]} ∪ MinesweeperAI.safes (MinesweeperAI.init 3 3))
      ∪ (mentioned (MinesweeperAI.init 3 3)
         ∪ filter (in_bounds (MinesweeperAI.init 3 3)) (neighbours (2, 2))).
Proof.
  refine (add_knowledge_frame 1 (2, 2) 0 (MinesweeperAI.init 3 3) corner_agent _).
  by vm_compute.
Defined.

(** X14. The subsumption step keeps [knowledge] true: if every sentence of
    [knowledge] counts exactly the mines of a layout [B] among its cells,
    the visit of a sentence returns and the same holds afterwards; the
    sentence it derives, if any, has [0 <= count <= |cells|]. *)
Theorem subsume_keeps_truth (B : gset Cell) (new i : nat) (a : MinesweeperAI.t)
    (n s : Sentence.t) :
  MinesweeperAI.knowledge a !! new = Some n →
  MinesweeperAI.knowledge a !! i = Some s →
  (∀ x, x ∈ MinesweeperAI.knowledge a → len (Sentence.cells x ∩ B) = Sentence.count x) →
  ∃ a', MinesweeperAI.subsume new i a = Ok (tt, a') ∧
        ∀ x, x ∈ MinesweeperAI.knowledge a' →
             len (Sentence.cells x ∩ B) = Sentence.count x ∧
             0 ≤ Sentence.count x ≤ len (Sentence.cells x).
Proof.
  intros Hn Hs HK. eexists. split; [by apply subsume_run|].
  intros x Hx. simpl in Hx.
  assert (Hx' : true_of B x).
  { eapply subsume_effect_true; [..|exact Hx].
    - apply HK. by eapply list_elem_of_lookup_2.
    - by eapply list_elem_of_lookup_2.
    - exact HK. }
  split; [exact Hx'|]. by apply (true_of_bounds B).
Qed.

Lemma subsume_keeps_truth_witness :
  ∃ a', MinesweeperAI.subsume 1 0 scenario3_agent = Ok (tt, a') ∧
        ∀ x, x ∈ MinesweeperAI.knowledge a' →
             len (Sentence.cells x ∩ {[(0, 1)]}) = Sentence.count x ∧
             0 ≤ Sentence.count x ≤ len (Sentence.cells x).
Proof.
  refine (subsume_keeps_truth {[(0, 1)]} 1 0 scenario3_agent
            (Sentence.mk {[(0, 0); (0, 1)]} 1)
            (Sentence.mk {[(0, 0); (0, 1); (0, 2)]} 1) _ _ _).
  - reflexivity.
  - reflexivity.
  - intros x Hx. unfold scenario3_agent in Hx. simpl in Hx.
    apply elem_of_cons in Hx as [->|Hx]; [by vm_compute|].
    apply list_elem_of_singleton in Hx as ->. by vm_compute.
Defined.

(** ** The constructor of the board *)

Section grid.
Import Grid.

Lemma foldl_snoc_const {A B : Type} (x : A) (l : list B) (acc : list A) :
  foldl (λ acc _, acc ++ [x]) acc l = acc ++ replicate (length l) x.
Proof.
  revert acc. induction l as [|y l IH]; intros acc; simpl.
  - by rewrite app_nil_r.
  - rewrite IH, <- app_assoc. done.
Qed.

Lemma empty_row_replicate (w : Z) : empty_row w = replicate (Z.to_nat w) false.
Proof. unfold empty_row. by rewrite foldl_snoc_const, length_seqZ. Qed.

Lemma empty_board_replicate (h w : Z) :
  empty_board h w = replicate (Z.to_nat h) (replicate (Z.to_nat w) false).
Proof.
  unfold empty_board. by rewrite foldl_snoc_const, length_seqZ, empty_row_replicate.
Qed.

Lemma agrees_empty (h w : Z) : agrees (mk h w ∅ (empty_board h w) ∅).
Proof.
  unfold agrees. simpl. rewrite empty_board_replicate. split_and!.
  - by rewrite length_replicate.
  - intros i row Hrow. apply lookup_replicate in Hrow as [-> _].
    by rewrite length_replicate.
  - intros i j row b Hrow Hb. apply lookup_replicate in Hrow as [-> _].
    apply lookup_replicate in Hb as [-> _]. by rewrite bool_decide_eq_false_2.
  - intros u Hu. by apply not_elem_of_empty in Hu.
Qed.

Lemma position_in_range {A : Type} (l : list A) (i : Z) :
  0 ≤ i < Z.of_nat (length l) → position l i = Some (Z.to_nat i).
Proof. intros Hi. unfold position. by rewrite bool_decide_eq_true_2. Qed.

Lemma randrange_range (n : Z) (r : nat) (i : Z) :
  randrange n r = Some i → 0 ≤ i < n.
Proof.
  unfold randrange. case_bool_decide; [|done]. intros [= <-].
  by apply Z.mod_pos_bound.
Qed.

Lemma randrange_empty (n : Z) (r : nat) : randrange n r = None → n ≤ 0.
Proof. unfold randrange. case_bool_decide; [done|lia]. Qed.

(** One mine more, at a cell of the grid that had none. *)
Lemma agrees_mined (g : t) (i j : Z) (row : list bool) :
  agrees g →
  0 ≤ i < height g → 0 ≤ j < width g →
  board g !! Z.to_nat i = Some row →
  agrees (mk (height g) (width g) ({[(i, j)]} ∪ mines g)
            (<[Z.to_nat i := <[Z.to_nat j := true]> row]> (board g)) (mines_found g)).
Proof.
  intros (Hlen & Hrows & Hcells & Hin) Hi Hj Hrow. unfold agrees. simpl. split_and!.
  - by rewrite length_insert.
  - intros i' row'. destruct (decide (i' = Z.to_nat i)) as [->|Hne].
    + rewrite list_lookup_insert_eq by (by eapply lookup_lt_Some).
      intros [= <-]. rewrite length_insert. by eapply Hrows.
    + rewrite list_lookup_insert_ne by done. apply Hrows.
  - intros i' j' row' b. destruct (decide (i' = Z.to_nat i)) as [->|Hne].
    + rewrite list_lookup_insert_eq by (by eapply lookup_lt_Some).
      intros [= <-]. destruct (decide (j' = Z.to_nat j)) as [->|Hnj].
      * intros Hb. apply list_lookup_insert_Some in Hb as [(_ & <- & _)|[? _]]; [|done].
        rewrite bool_decide_eq_true_2; [done|]. rewrite !Z2Nat.id by lia. set_solver.
      * rewrite list_lookup_insert_ne by done. intros Hb.
        rewrite (Hcells _ _ _ _ Hrow Hb). apply bool_decide_ext.
        rewrite elem_of_union, elem_of_singleton. split; [by right|].
        intros [[= _ Hj']|]; [|done]. destruct Hnj. lia.
    + rewrite list_lookup_insert_ne by done. intros Hrow' Hb.
      rewrite (Hcells _ _ _ _ Hrow' Hb). apply bool_decide_ext.
      rewrite elem_of_union, elem_of_singleton. split; [by right|].
      intros [[= Hi' _]|]; [|done]. destruct Hne. lia.
  - intros u. rewrite elem_of_union, elem_of_singleton. intros [->|Hu]; [done|by apply Hin].
Qed.

Lemma place_spec (draws : list (nat * nat)) (target : Z) (g : t) :
  agrees g →
  match place draws target g with
  | Built g' =>
      agrees g' ∧ len (mines g') = target ∧
      height g' = height g ∧ width g' = width g ∧ mines_found g' = mines_found g
  | ValueError => height g ≤ 0 ∨ width g ≤ 0
  | IndexError => False
  | Starved => True
  end.
Proof.
  revert g. induction draws as [|[r1 r2] draws IH]; intros g Hg; simpl.
  - case_bool_decide as Hc; [done|].
    assert (len (mines g) = target)
      by (destruct (decide (len (mines g) = target)); [done|by destruct Hc]).
    by split_and!.
  - case_bool_decide as Hc.
    2: { assert (len (mines g) = target)
           by (destruct (decide (len (mines g) = target)); [done|by destruct Hc]).
         by split_and!. }
    destruct (randrange (height g) r1) as [i|] eqn:Hr1;
      [|left; by apply randrange_empty in Hr1].
    destruct (randrange (width g) r2) as [j|] eqn:Hr2;
      [|right; by apply randrange_empty in Hr2].
    apply randrange_range in Hr1, Hr2.
    pose proof Hg as (Hlen & Hrows & Hcells & Hin).
    destruct (lookup_lt_is_Some_2 (board g) (Z.to_nat i)) as [row Hrow]; [lia|].
    unfold item at 1. rewrite position_in_range by lia. simpl. rewrite Hrow.
    pose proof (Hrows _ _ Hrow) as Hrowlen.
    destruct (lookup_lt_is_Some_2 row (Z.to_nat j)) as [b Hb]; [lia|].
    unfold item. rewrite position_in_range by lia. simpl. rewrite Hb.
    destruct b.
    + by apply IH.
    + unfold set_item. rewrite !position_in_range by lia. simpl.
      specialize (IH _ (agrees_mined g i j row Hg Hr1 Hr2 Hrow)).
      destruct (place draws target _); simpl in *; try done.
Qed.

Lemma length_bind_const {A B : Type} (f : A → list B) (n : nat) (l : list A) :
  (∀ x, length (f x) = n) → length (l ≫= f) = (length l * n)%nat.
Proof.
  intros Hf. induction l as [|x l IH]; [done|].
  rewrite bind_cons, length_app, Hf, IH. simpl. lia.
Qed.

(** A set of cells of the grid has at most [height * width] elements. *)
Lemma len_on_grid (h w : Z) (X : gset Cell) :
  (∀ u, u ∈ X → (0 ≤ u.1 < h) ∧ (0 ≤ u.2 < w)) →
  len X ≤ Z.max 0 h * Z.max 0 w.
Proof.
  intros HX.
  set (l := MinesweeperAI.grid (MinesweeperAI.init h w)).
  assert (Hlen : length l = (Z.to_nat h * Z.to_nat w)%nat).
  { unfold l, MinesweeperAI.grid. simpl.
    rewrite (length_bind_const _ (Z.to_nat w)), length_seqZ; [done|].
    intros r. rewrite (length_bind_const _ 1%nat), length_seqZ; [lia|done]. }
  assert (Hsub : elements X ⊆+ l).
  { apply NoDup_submseteq; [apply NoDup_elements|].
    intros u Hu. apply elem_of_elements in Hu. apply elem_of_grid.
    unfold in_bounds. simpl. by apply HX. }
  apply submseteq_length in Hsub. unfold len, size, set_size. simpl.
  rewrite Hlen in Hsub. lia.
Qed.

End grid.

(** X15. The constructor of the board.  Whatever the random draws, when
    [Minesweeper(height, width, mines)] returns: the board has the size
    asked for and exactly [mines] mines, all of them on the grid; the grid
    has [height] rows of [width] entries and [is_mine] answers [True]
    exactly at the cells of [self.mines]; no mine is found yet, so [won()]
    holds only for a board without mines.  The grid is never indexed out of
    range, and [ValueError] (from [randrange]) is only possible when
    [height] or [width] is not positive. *)
Theorem board_constructor (draws : list (nat * nat)) (height width mines : Z) :
  match Grid.init draws height width mines with
  | Grid.Built g =>
      Grid.height g = height ∧ Grid.width g = width ∧
      len (Grid.mines g) = mines ∧
      Grid.mines_found g = ∅ ∧
      length (Grid.board g) = Z.to_nat height ∧
      (∀ u, u ∈ Grid.mines g → (0 ≤ u.1 < height) ∧ (0 ≤ u.2 < width)) ∧
      (∀ u, (0 ≤ u.1 < height) ∧ (0 ≤ u.2 < width) →
            Grid.is_mine u g = Some (bool_decide (u ∈ Grid.mines g))) ∧
      Grid.won g = bool_decide (mines = 0)
  | Grid.ValueError => height ≤ 0 ∨ width ≤ 0
  | Grid.IndexError => False
  | Grid.Starved => True
  end.
Proof.
  unfold Grid.init.
  pose proof (place_spec draws mines _ (agrees_empty height width)) as H.
  destruct (Grid.place draws mines _) as [g| | |]; try done.
  simpl in H. destruct H as ((Hlen & Hrows & Hcells & Hin) & Hn & Hh & Hw & Hf).
  rewrite Hh, Hw in *. split_and!; try done.
  - intros u [H1 H2]. unfold Grid.is_mine, Grid.item.
    destruct (lookup_lt_is_Some_2 (Grid.board g) (Z.to_nat u.1)) as [row Hrow]; [lia|].
    rewrite position_in_range by lia. simpl. rewrite Hrow. simpl.
    pose proof (Hrows _ _ Hrow) as Hrowlen.
    destruct (lookup_lt_is_Some_2 row (Z.to_nat u.2)) as [b Hb]; [lia|].
    rewrite position_in_range by lia. simpl. rewrite Hb.
    rewrite (Hcells _ _ _ _ Hrow Hb). rewrite !Z2Nat.id by lia. by destruct u.
  - unfold Grid.won. rewrite Hf. apply bool_decide_ext. rewrite <- Hn. split.
    + intros <-. apply len_empty.
    + intros H0. symmetry. by apply len_zero.
Qed.

(** X16. A board cannot be built with more mines than cells, nor with a
    negative number of mines: for such a request the constructor never
    returns, whatever the random draws (its loop goes on until the draws are
    exhausted, or [randrange] raises on an empty range). *)
Theorem board_constructor_overfull (draws : list (nat * nat)) (height width mines : Z) :
  mines < 0 ∨ Z.max 0 height * Z.max 0 width < mines →
  Grid.init draws height width mines = Grid.Starved ∨
  Grid.init draws height width mines = Grid.ValueError.
Proof.
  intros Hm. unfold Grid.init.
  pose proof (place_spec draws mines _ (agrees_empty height width)) as H.
  destruct (Grid.place draws mines _) as [g| | |]; try tauto.
  exfalso. simpl in H. destruct H as ((Hlen & Hrows & Hcells & Hin) & Hn & Hh & Hw & Hf).
  pose proof (len_nonneg (Grid.mines g)).
  pose proof (len_on_grid _ _ _ Hin) as Hle. rewrite Hh, Hw in Hle. lia.
Qed.

Lemma board_constructor_overfull_witness :
  Grid.init [(0, 0); (1, 1); (0, 1); (1, 0); (1, 1)]%nat 2 2 5 = Grid.Starved ∨
  Grid.init [(0, 0); (1, 1); (0, 1); (1, 0); (1, 1)]%nat 2 2 5 = Grid.ValueError.
Proof.
  refine (board_constructor_overfull [(0, 0); (1, 1); (0, 1); (1, 0); (1, 1)]%nat 2 2 5 _).
  right. simpl. lia.
Defined.
